(** * A shallow embedding of the streaming zip reader

    The development follows the Go sources file by file:
    - [io.go]          the rewindable forward-only stream [RewindReader];
    - [fast_crypto.go] the authenticated-decryption reader;
    - [fast_reader.go] the entry catalog and the integrity reader.

    Go readers are modelled by explicit state passing: a call
    [Read(p)] with [len(p) = k] becomes [Read r k], which returns the
    new reader state, the bytes [p[:n]] it produced and the error. *)

From Stdlib Require Import String.
From Stdlib Require Import ZArith List Bool Lia Arith.
From Stdlib Require Import Permutation Sorted.
From Stdlib.Strings Require Byte.
Import ListNotations.

Local Open Scope Z_scope.

Ltac Zify.zify_post_hook ::= Z.to_euclidean_division_equations.

(** ** Errors, panics and machine integers *)

Definition byte := Byte.byte.

(** The error values the package returns.  [ErrNew] stands for a value
    built by [errors.New]; transport errors of the underlying source
    are [ErrNew] values as well. *)
Inductive error : Type :=
| EOF
| ErrUnexpectedEOF
| ErrFormat
| ErrAlgorithm
| ErrChecksum
| ErrDecryption
| ErrPassword
| ErrAuthentication
| ErrNew (msg : string).

Definition error_eq_dec (a b : error) : {a = b} + {a <> b}.
Proof. decide equality. apply string_dec. Defined.

Definition error_eqb (a b : error) : bool :=
  if error_eq_dec a b then true else false.

(** A Go call returns, panics, or is still running when the fuel given
    to its unbounded loops ([io.ReadFull], [io.Copy]) is used up. *)
Inductive outcome (A : Type) : Type :=
| Ret (a : A)
| Panic (msg : string)
| OutOfFuel.
Arguments Ret {A} a.
Arguments Panic {A} msg.
Arguments OutOfFuel {A}.

Definition bind {A B} (m : outcome A) (f : A -> outcome B) : outcome B :=
  match m with
  | Ret a => f a
  | Panic msg => Panic msg
  | OutOfFuel => OutOfFuel
  end.

Notation "x <- m ;; k" := (bind m (fun x => k))
  (at level 61, m at next level, right associativity).
Notation "' pat <- m ;; k" := (bind m (fun x => match x with pat => k end))
  (at level 61, pat pattern, m at next level, right associativity).

(** [int64] arithmetic wraps around. *)
Definition wrap64 (z : Z) : Z := (z + 2 ^ 63) mod 2 ^ 64 - 2 ^ 63.

Definition in_int64 (z : Z) : Prop := - 2 ^ 63 <= z < 2 ^ 63.

(** ** [io.Reader] *)

(** [Read r k] is [r.Read(p)] with [len(p) = k]: the new state, the
    bytes [p[:n]] and the error. *)
Class Reader (R : Type) : Type :=
  Read : R -> nat -> R * list byte * option error.

(** A source in memory, as [bytes.Reader]: a read delivers as much as
    fits, and the exhausted source answers [io.EOF]. *)
Record BytesReader : Type := mkBytes { remaining : list byte }.

#[export] Instance BytesReader_Reader : Reader BytesReader := fun r k =>
  match remaining r with
  | [] => (r, [], Some EOF)
  | _ => (mkBytes (skipn k (remaining r)), firstn k (remaining r), None)
  end.

(** [io.LimitReader(r, n).Read] on the reader [r] and the remaining
    count [n]; the underlying reader is handed back, since the callers
    keep using it. *)
Definition limitRead {R} `{Reader R} (r : R) (n : Z) (k : nat)
  : R * Z * list byte * option error :=
  if n <=? 0 then (r, n, [], Some EOF)
  else
    let k' := if n <? Z.of_nat k then Z.to_nat n else k in
    let '(r', bs, err) := Read r k' in
    (r', n - Z.of_nat (length bs), bs, err).

Record LimitedReader (R : Type) : Type := mkLimited { lrR : R; lrN : Z }.
Arguments mkLimited {R}.
Arguments lrR {R}.
Arguments lrN {R}.

#[export] Instance LimitedReader_Reader {R} `{Reader R}
  : Reader (LimitedReader R) := fun l k =>
  let '(r', n', bs, err) := limitRead (lrR l) (lrN l) k in
  (mkLimited r' n', bs, err).

(** ** io.go: [RewindReader] *)

(** The largest allocation the Go runtime accepts where [int] has 64
    bits, as [wrap64] assumes: [maxAlloc] of runtime/malloc.go, two to
    the number of heap address bits.  [make] panics beyond it and for
    a negative size.  Within the bound memory is taken to be
    available: running out of it ends the process, which is not an
    outcome of this model. *)
Definition maxAlloc : Z := 2 ^ 48.

Module Rewind.

Record RewindReader (R : Type) : Type := mk {
  rawReader : R;
  buf : list byte;
  bufReadIdx : nat;
  rewound : bool;
  buffering : bool;
  bufferSize : Z;
  readIdx : Z;
  logged : list string
}.
Arguments mk {R}.
Arguments rawReader {R}.
Arguments buf {R}.
Arguments bufReadIdx {R}.
Arguments rewound {R}.
Arguments buffering {R}.
Arguments bufferSize {R}.
Arguments readIdx {R}.
Arguments logged {R}.

(** [&RewindReader{rawReader: r}] *)
Definition new {R} (raw : R) : RewindReader R :=
  mk raw [] 0%nat false false 0 0 [].

Section Ops.
Context {R : Type} `{Reader R}.

Definition set_readIdx (r : RewindReader R) (i : Z) : RewindReader R :=
  mk (rawReader r) (buf r) (bufReadIdx r) (rewound r) (buffering r)
     (bufferSize r) i (logged r).

Definition read (r : RewindReader R) (k : nat)
  : RewindReader R * list byte * option error :=
  if rewound r && (bufReadIdx r <? length (buf r))%nat then
    let bs := firstn k (skipn (bufReadIdx r) (buf r)) in
    (mk (rawReader r) (buf r) (bufReadIdx r + length bs) true
        (buffering r) (bufferSize r) (readIdx r) (logged r),
     bs, None)
  else
    let '(raw', bs, err) := Read (rawReader r) k in
    if buffering r then
      let buf' := buf r ++ bs in
      let logged' :=
        if bufferSize r * 2 <? Z.of_nat (length buf')
        then logged r ++ ["read too many bytes!"%string] else logged r in
      (mk raw' buf' (bufReadIdx r) false true (bufferSize r) (readIdx r)
          logged', bs, err)
    else
      (mk raw' (buf r) (bufReadIdx r) false false (bufferSize r)
          (readIdx r) (logged r), bs, err).

Definition RRead (r : RewindReader R) (k : nat)
  : RewindReader R * list byte * option error :=
  let '(r', bs, err) := read r k in
  (set_readIdx r' (wrap64 (readIdx r' + Z.of_nat (length bs))), bs, err).

(** The loop of [discard]:
    [for discarded := 0; discarded+128 < n; discarded += 128].
    The result is [Some (discarded, err)] when a read failed inside the
    loop.  The loop runs at most [n / 128] times; [fuel] bounds it. *)
Fixpoint discard_loop (fuel : nat) (r : RewindReader R) (discarded n : Z)
  : RewindReader R * option (Z * error) :=
  match fuel with
  | O => (r, None)
  | S fuel' =>
      if discarded + 128 <? n then
        let '(r', _, err) := RRead r 128 in
        match err with
        | Some e => (r', Some (discarded, e))
        | None => discard_loop fuel' r' (discarded + 128) n
        end
      else (r, None)
  end.

Definition discard (r : RewindReader R) (n : Z)
  : outcome (RewindReader R * Z * option error) :=
  if n <? 0 then Panic "slice bounds out of range"
  else if n <? 128 then
    let '(r', bs, err) := RRead r (Z.to_nat n) in
    Ret (r', Z.of_nat (length bs), err)
  else
    match discard_loop (Z.to_nat (n / 128)) r 0 n with
    | (r', Some (d, e)) => Ret (r', d, Some e)
    | (r', None) =>
        let rest := Z.rem n 128 in
        if negb (rest =? 0) then
          let '(r'', bs, err) := RRead r' (Z.to_nat rest) in
          Ret (r'', Z.of_nat (length bs), err)
        else Ret (r', n, None)
    end.

Definition Discard (r : RewindReader R) (n : Z)
  : outcome (RewindReader R * Z * option error) :=
  '(r', n', err) <- discard r n ;;
  Ret (set_readIdx r' (wrap64 (readIdx r' + n')), n', err).

Definition Seek (r : RewindReader R) (offset whence : Z)
  : outcome (RewindReader R * Z * option error) :=
  if negb (whence =? 0) then Ret (r, 0, Some (ErrNew "unsupported whence"))
  else if offset <? readIdx r
  then Ret (r, 0, Some (ErrNew "offset is less than readIdx"))
  else
    let d := wrap64 (offset - readIdx r) in
    if 0 <? d then
      '(r', _, err) <- Discard r d ;;
      match err with
      | Some e => Ret (r', 0, Some e)
      | None => Ret (r', offset, None)
      end
    else Ret (r, offset, None).

Definition Rewind (r : RewindReader R) : outcome (RewindReader R) :=
  if bufferSize r =? 0 then Panic "no buffer"
  else Ret (mk (rawReader r) (buf r) 0 true (buffering r) (bufferSize r)
               (wrap64 (readIdx r - Z.of_nat (length (buf r)))) (logged r)).

Definition StopBuffering (r : RewindReader R) : RewindReader R :=
  mk (rawReader r) (buf r) (bufReadIdx r) (rewound r) false (bufferSize r)
     (readIdx r) (logged r).

(** Entering a session ends in [make([]byte, 0, size)], which panics
    for a capacity that is negative or exceeds [maxAlloc].  The panic
    leaves the mutex locked, so the reader cannot be used afterwards. *)
Definition SetBufferSize (r : RewindReader R) (size : Z)
  : outcome (RewindReader R) :=
  if size =? 0 then
    if negb (buffering r) then Panic "reader is disabled"
    else Ret (mk (rawReader r) [] 0 (rewound r) false 0 (readIdx r)
                 (logged r))
  else
    if buffering r then Panic "reader is buffering"
    else if (size <? 0) || (maxAlloc <? size)
    then Panic "runtime error: makeslice: cap out of range"
    else Ret (mk (rawReader r) [] 0 (rewound r) true size (readIdx r)
                 (logged r)).

(** [readByte] reads into a one-byte array and returns its first
    element, which is zero when nothing was read. *)
Definition readByte (r : RewindReader R)
  : RewindReader R * byte * option error :=
  let '(r', bs, err) := RRead r 1 in
  (r', hd Byte.x00 bs, err).

Definition ReadByte (r : RewindReader R)
  : RewindReader R * byte * option error :=
  let '(r', b, err) := readByte r in
  (set_readIdx r' (wrap64 (readIdx r' + 1)), b, err).

End Ops.

#[export] Instance RewindReader_Reader {R} `{Reader R}
  : Reader (RewindReader R) := RRead.

End Rewind.

(** ** Standard-library helpers used by the readers *)

(** [bytes.MinRead]: the least room [bytes.Buffer.ReadFrom] offers to
    every read. *)
Definition MinRead : nat := 512.

(** [io.Copy(ab, io.LimitReader(r, n))] into a [bytes.Buffer], which
    is [ab.ReadFrom]: read until an error; [io.EOF] ends the copy
    without error.  Returns the reader, the bytes copied and the error. *)
Fixpoint copyLimited {R} `{Reader R} (fuel : nat) (r : R) (n : Z)
  (acc : list byte) : outcome (R * list byte * option error) :=
  match fuel with
  | O => OutOfFuel
  | S fuel' =>
      let '(r', n', bs, err) := limitRead r n MinRead in
      match err with
      | Some EOF => Ret (r', acc ++ bs, None)
      | Some e => Ret (r', acc ++ bs, Some e)
      | None => copyLimited fuel' r' n' (acc ++ bs)
      end
  end.

(** [io.ReadFull(r, buf)] with [len(buf) = k]: read until [k] bytes
    arrived or a read failed. *)
Fixpoint readAtLeast {R} `{Reader R} (fuel : nat) (r : R) (k : nat)
  (acc : list byte) : outcome (R * list byte * option error) :=
  if (k <=? length acc)%nat then Ret (r, acc, None)
  else
    match fuel with
    | O => OutOfFuel
    | S fuel' =>
        let '(r', bs, err) := Read r (k - length acc) in
        let acc' := acc ++ bs in
        match err with
        | None => readAtLeast fuel' r' k acc'
        | Some e =>
            if (k <=? length acc')%nat then Ret (r', acc', None)
            else if (0 <? length acc')%nat && error_eqb e EOF
            then Ret (r', acc', Some ErrUnexpectedEOF)
            else Ret (r', acc', Some e)
        end
    end.

Definition ReadFull {R} `{Reader R} (fuel : nat) (r : R) (k : nat)
  : outcome (R * list byte * option error) :=
  readAtLeast fuel r k [].

Definition byte_xor (a b : byte) : N := N.lxor (Byte.to_N a) (Byte.to_N b).

(** The loop of [subtle.ConstantTimeCompare]: [v |= x[i] ^ y[i]] over
    every index, with no early exit. *)
Fixpoint ctc_loop (v : N) (x y : list byte) : N :=
  match x, y with
  | a :: x', b :: y' => ctc_loop (N.lor v (byte_xor a b)) x' y'
  | _, _ => v
  end.

Definition ConstantTimeCompare (x y : list byte) : Z :=
  if negb (length x =? length y)%nat then 0
  else if (ctc_loop 0 x y =? 0)%N then 1 else 0.

(** ** fast_crypto.go: the authenticated-decryption reader *)

(** The collaborators of [newFastDecryptionReader] that live outside
    the files modelled here: key-length table, key derivation,
    password check and stream cipher of the package's crypto file, and
    HMAC-SHA1 of the Go library.  They are parameters of the model.
    The key-length table yields the AES key sizes 16, 24 and 32, or 0
    for an unknown strength; the model keeps the bound, which is what
    lets the peek buffer of [saltLen+2] bytes be allocated. *)
Class Crypto : Type := {
  aesKeyLen : Z -> nat;
  generateKeys : list byte -> list byte -> nat
                 -> list byte * list byte * list byte;
  checkPasswordVerification : list byte -> list byte -> bool;
  Cipher : Type;
  decryptStream : list byte -> option Cipher;
  hmac_sha1 : list byte -> list byte -> list byte;
  aesKeyLen_le : forall strength, (aesKeyLen strength <= 32)%nat;
  hmac_sha1_size : forall key msg, length (hmac_sha1 key msg) = 20%nat
}.

(** The fields of [FileHeader] that the readers consult.  [password]
    is the value of the header's password callback. *)
Record FileHeader : Type := mkHeader {
  Flags : Z;
  Method : Z;
  CRC32 : Z;
  CompressedSize64 : Z;
  UncompressedSize64 : Z;
  ae : Z;
  aesStrength : Z;
  password : list byte
}.

(** [uint64] subtraction followed by the conversion to [int64]. *)
Definition wrapU64 (z : Z) : Z := z mod 2 ^ 64.

Module FastCrypto.
Import Rewind.

(** [hash.Hash] for HMAC: the key and everything written so far;
    [Write] never fails. *)
Record Mac : Type := mkMac { macKey : list byte; macData : list byte }.

Definition macWrite (m : Mac) (bs : list byte) : Mac :=
  mkMac (macKey m) (macData m ++ bs).

Record fastAuthReader (R : Type) : Type := mkAuth {
  (** [data] is [io.LimitReader(raw, dataN)]: it shares [raw] *)
  dataN : Z;
  raw : RewindReader R;
  authOff : Z;
  mac : Mac;
  err : option error;
  auth : bool
}.
Arguments mkAuth {R}.
Arguments dataN {R}.
Arguments raw {R}.
Arguments authOff {R}.
Arguments mac {R}.
Arguments err {R}.
Arguments auth {R}.

Section Readers.
Context {R : Type} `{Reader R} `{Crypto}.

Definition macSum (m : Mac) : list byte := hmac_sha1 (macKey m) (macData m).

Definition newFastAuthReader (akey : list byte) (dataLen : Z)
  (rw : RewindReader R) (aOff : Z) : fastAuthReader R :=
  mkAuth dataLen rw aOff (mkMac akey []) None false.

Definition checkAuthentication (a : fastAuthReader R) (authcode : list byte)
  : fastAuthReader R * bool :=
  let expectedAuthCode := firstn 10 (macSum (mac a)) in
  let ok := 0 <? ConstantTimeCompare expectedAuthCode authcode in
  (mkAuth (dataN a) (raw a) (authOff a) (mac a) (err a) ok, ok).

Definition set_err (a : fastAuthReader R) (e : option error)
  : fastAuthReader R :=
  mkAuth (dataN a) (raw a) (authOff a) (mac a) e (auth a).

Definition AuthRead (fuel : nat) (a : fastAuthReader R) (k : nat)
  : outcome (fastAuthReader R * list byte * option error) :=
  match err a with
  | Some e => Ret (a, [], Some e)
  | None =>
      let '(raw1, n1, bs, rerr) := limitRead (raw a) (dataN a) k in
      let a1 := mkAuth n1 raw1 (authOff a) (mac a) None (auth a) in
      match rerr with
      | None =>
          let a2 := mkAuth n1 raw1 (authOff a) (macWrite (mac a) bs) None
                      (auth a) in
          Ret (a2, bs, None)
      | Some EOF =>
          let a2 := mkAuth n1 raw1 (authOff a) (macWrite (mac a) bs)
                      (Some EOF) (auth a) in
          '(raw2, _, serr) <- Seek raw1 (authOff a) 0 ;;
          let a3 := mkAuth n1 raw2 (authOff a) (mac a2) (Some EOF) (auth a) in
          match serr with
          | Some e => Ret (set_err a3 (Some e), bs, Some e)
          | None =>
              '(raw3, ab, cerr) <- copyLimited fuel raw2 10 [] ;;
              let a4 := mkAuth n1 raw3 (authOff a) (mac a2) (Some EOF)
                          (auth a) in
              match cerr with
              | Some _ => Ret (set_err a4 (Some ErrDecryption), bs,
                               Some ErrDecryption)
              | None =>
                  if negb (length ab =? 10)%nat
                  then Ret (set_err a4 (Some ErrDecryption), bs,
                            Some ErrDecryption)
                  else
                    let '(a5, ok) := checkAuthentication a4 ab in
                    if negb ok
                    then Ret (set_err a5 (Some ErrAuthentication), bs,
                              Some ErrAuthentication)
                    else Ret (a5, bs, err a5)
              end
          end
      | Some e => Ret (set_err a1 (Some e), bs, Some e)
      end
  end.

(** The reader returned by [decryptStream(decKey, ar)]. *)
Record fastDecryptionReader : Type := mkDec {
  cipher : Cipher;
  ar : fastAuthReader R
}.

(** [make([]byte, k)] filled by the first [n] bytes read. *)
Definition fill (k : nat) (bs : list byte) : list byte :=
  firstn k (bs ++ repeat Byte.x00 k).

(** On failure the function returns the error together with the
    rewind reader it built, whose [rawReader] is the caller's stream as
    the attempt left it.  [make([]byte, saltLen+2)] allocates at most
    18 bytes, by [aesKeyLen_le]; [SetBufferSize] makes the same test
    on the same size. *)
Definition newFastDecryptionReader (r : R) (header : FileHeader)
  : outcome (fastDecryptionReader + RewindReader R * error) :=
  let rewindReader := new r in
  let keyLen := aesKeyLen (aesStrength header) in
  let saltLen := (keyLen / 2)%nat in
  if (saltLen =? 0)%nat then Ret (inr (rewindReader, ErrDecryption))
  else
    rw1 <- SetBufferSize rewindReader (Z.of_nat (saltLen + 2)) ;;
    let '(rw2, bs, rerr) := RRead rw1 (saltLen + 2) in
    let saltpwvv := fill (saltLen + 2) bs in
    match rerr with
    | Some e => Ret (inr (rw2, e))
    | None =>
        rw3 <- Rewind rw2 ;;
        let rw4 := StopBuffering rw3 in
        let salt := firstn saltLen saltpwvv in
        let pwvv := firstn 2 (skipn saltLen saltpwvv) in
        let '(decKey, authKey, pwv) :=
          generateKeys (password header) salt keyLen in
        if negb (checkPasswordVerification pwv pwvv)
        then Ret (inr (rw4, ErrPassword))
        else
          let dataOff := Z.of_nat (saltLen + 2) in
          let dataLen :=
            wrap64 (wrapU64 (CompressedSize64 header - Z.of_nat saltLen
                             - 2 - 10)) in
          '(rw5, _, _) <- Seek rw4 dataOff 0 ;;
          let aOff := wrap64 (dataOff + dataLen) in
          let a := newFastAuthReader authKey dataLen rw5 aOff in
          match decryptStream decKey with
          | None => Ret (inr (rw5, ErrDecryption))
          | Some c => Ret (inl (mkDec c a))
          end
    end.

End Readers.
End FastCrypto.

(** ** hash/crc32: the IEEE checksum, as the Go library computes it *)

Module Crc32.

Definition IEEE : Z := 0xedb88320.

(** One round of [simpleMakeTable]'s inner loop. *)
Definition shift1 (crc : Z) : Z :=
  if Z.testbit crc 0 then Z.lxor (Z.shiftr crc 1) IEEE else Z.shiftr crc 1.

Definition entry (i : Z) : Z :=
  shift1 (shift1 (shift1 (shift1 (shift1 (shift1 (shift1 (shift1 i))))))).

Definition table : list Z :=
  Eval vm_compute in map (fun i => entry (Z.of_nat i)) (seq 0 256).

Definition tab (i : Z) : Z := nth (Z.to_nat i) table 0.

Definition not32 (x : Z) : Z := Z.lxor x 0xffffffff.

(** [crc = tab[byte(crc)^v] ^ (crc >> 8)] *)
Definition step (crc : Z) (v : byte) : Z :=
  Z.lxor (tab (Z.lxor (Z.land crc 0xff) (Z.of_N (Byte.to_N v))))
         (Z.shiftr crc 8).

(** [simpleUpdate] *)
Definition update (crc : Z) (p : list byte) : Z :=
  not32 (fold_left step p (not32 crc)).

(** [crc32.NewIEEE()]: the digest is its running value. *)
Definition NewIEEE : Z := 0.
Definition Write (d : Z) (p : list byte) : Z := update d p.
Definition Sum32 (d : Z) : Z := d.

Definition ChecksumIEEE (p : list byte) : Z := update 0 p.

End Crc32.

(** ** fast_reader.go: the catalog and the integrity reader *)

(** Modelled from the spec: the record signatures and fixed lengths of
    the persisted format, which the package declares outside the files
    modelled here.  They are the values of the zip format: the local
    file header, the central directory header, the end of central
    directory record and the optional data descriptor. *)
Definition fileHeaderSignature : Z := 0x04034b50.
Definition directoryHeaderSignature : Z := 0x02014b50.
Definition directoryEndSignature : Z := 0x06054b50.
Definition dataDescriptorSignature : Z := 0x08074b50.
Definition fileHeaderLen : nat := 30.
Definition dataDescriptorLen : nat := 16.

(** [readBuf.uint16] and [readBuf.uint32]: little-endian decoding of
    the first bytes of the buffer. *)
Definition byteZ (b : byte) : Z := Z.of_N (Byte.to_N b).

Definition uint16 (b : list byte) : Z :=
  match b with
  | b0 :: b1 :: _ => Z.lor (byteZ b0) (Z.shiftl (byteZ b1) 8)
  | _ => 0
  end.

Definition uint32 (b : list byte) : Z :=
  match b with
  | b0 :: b1 :: b2 :: b3 :: _ =>
      Z.lor (Z.lor (byteZ b0) (Z.shiftl (byteZ b1) 8))
            (Z.lor (Z.shiftl (byteZ b2) 16) (Z.shiftl (byteZ b3) 24))
  | _ => 0
  end.

(** [io.MultiReader]: the readers not yet exhausted. *)
Fixpoint multiRead {R} `{Reader R} (rs : list R) (k : nat)
  : list R * list byte * option error :=
  match rs with
  | [] => ([], [], Some EOF)
  | r :: rest =>
      let '(r', bs, err) := Read r k in
      match err with
      | Some EOF =>
          if (0 <? length bs)%nat
          then (rest, bs, match rest with [] => Some EOF | _ => None end)
          else multiRead rest k
      | _ => (r' :: rest, bs, err)
      end
  end.

Record MultiReader (R : Type) : Type := mkMulti { readers : list R }.
Arguments mkMulti {R}.
Arguments readers {R}.

#[export] Instance MultiReader_Reader {R} `{Reader R}
  : Reader (MultiReader R) := fun m k =>
  let '(rs, bs, err) := multiRead (readers m) k in (mkMulti rs, bs, err).

(** A [Read] method over a state [S]; it may run the unbounded loops
    of the library, hence the fuel. *)
Definition ReadFn (S : Type) : Type :=
  nat -> S -> nat -> outcome (S * list byte * option error).

(** The collaborators of [Open] that live outside the files modelled
    here: the header predicates, the legacy cipher, the stream cipher
    behind [decryptStream] and the decompressor registry.  A reader
    that wraps another one is a function of the wrapped [Read]. *)
Class Codecs `{Crypto} : Type := {
  IsEncrypted : FileHeader -> bool;
  isAE2 : FileHeader -> bool;
  ZipCrypto : Type;
  NewZipCryptoReader :
    forall S, ReadFn S -> nat -> S -> list byte
              -> outcome (S * (ZipCrypto + error));
  zipCryptoRead : forall S, ReadFn S -> ReadFn (ZipCrypto * S);
  cipherRead : forall S, ReadFn S -> ReadFn (Cipher * S);
  Decomp : Type;
  decompressor : Z -> option Decomp;
  decompRead : forall S, ReadFn S -> ReadFn (Decomp * S)
}.

Module FastReader.
Import Rewind FastCrypto.

(** A parsed central-directory header: what [init] keeps of [File]. *)
Record File : Type := mkFile {
  fileHeader : FileHeader;
  fileHeaderOffset : Z
}.

Record FastFile : Type := mkFastFile {
  hdr : FileHeader;
  headerOffset : Z
}.

(** [sort.Slice(z.files, less)] with
    [less(i, j) = files[i].headerOffset < files[j].headerOffset]:
    the library promises a sorted rearrangement and no stability;
    insertion is the order used here. *)
Fixpoint insert (f : FastFile) (l : list FastFile) : list FastFile :=
  match l with
  | [] => [f]
  | g :: l' =>
      if headerOffset f <? headerOffset g then f :: g :: l'
      else g :: insert f l'
  end.

Definition sortSlice (l : list FastFile) : list FastFile :=
  fold_right insert [] l.

(** The loop of [init] over the results of the successive calls of
    [readDirectoryHeader]: [ErrFormat] and [io.ErrUnexpectedEOF] end
    the enumeration, another error aborts.  The directory region is
    finite: when the results run out the parse has met its end. *)
Fixpoint parseLoop (results : list (File + error)) (acc : list FastFile)
  : list FastFile + error :=
  match results with
  | [] => inl acc
  | inl f :: rest =>
      parseLoop rest (acc ++ [mkFastFile (fileHeader f) (fileHeaderOffset f)])
  | inr e :: rest =>
      if error_eqb e ErrFormat || error_eqb e ErrUnexpectedEOF then inl acc
      else inr e
  end.

Section Catalog.
Context {R : Type} `{Reader R} `{Codecs}.

(** A volume handed to [NewFastReader]: the result of [Seek(0, 0)] on
    it and the stream it then delivers. *)
Record ZipFileReader : Type := mkVolume {
  seekStart : option error;
  stream : R
}.

(** What the directory pass finds through the random-access view of
    the volumes: the error of [readDirectoryEnd], the error of the
    seek to the directory, and the results of [readDirectoryHeader]. *)
Record DirectoryPass : Type := mkPass {
  directoryEndErr : option error;
  directorySeekErr : option error;
  headerResults : list (File + error)
}.

Record FastReader : Type := mkReader {
  r : RewindReader (MultiReader R);
  files : list FastFile
}.

Fixpoint seekAll (vs : list ZipFileReader) (acc : list R) : list R + error :=
  match vs with
  | [] => inl acc
  | v :: rest =>
      match seekStart v with
      | Some e => inr e
      | None => seekAll rest (acc ++ [stream v])
      end
  end.

Definition init (dir : DirectoryPass) (zipReaders : list ZipFileReader)
  : FastReader + error :=
  match directoryEndErr dir with
  | Some e => inr e
  | None =>
      match directorySeekErr dir with
      | Some e => inr e
      | None =>
          match parseLoop (headerResults dir) [] with
          | inr e => inr e
          | inl fs =>
              let sorted := sortSlice fs in
              match seekAll zipReaders [] with
              | inr e => inr e
              | inl rs => inl (mkReader (new (mkMulti rs)) sorted)
              end
          end
      end
  end.

Definition NewFastReader := init.

(** [WalkDir(fn)]: the callback acts on the caller's state [A]. *)
Definition WalkDir {A} (z : FastReader) (fn : FastFile -> A -> A) (a : A) : A :=
  fold_left (fun a f => fn f a) (files z) a.

End Catalog.

(** *** The integrity reader *)

Record fastFileReader (RC : Type) : Type := mkFile_ {
  rc : RC;
  descOff : Z;
  hash : Z;
  nread : Z;
  f : FastFile;
  ferr : option error
}.
Arguments mkFile_ {RC}.
Arguments rc {RC}.
Arguments descOff {RC}.
Arguments hash {RC}.
Arguments nread {RC}.
Arguments f {RC}.
Arguments ferr {RC}.

Definition hasDataDescriptor (f : FastFile) : bool :=
  negb (Z.land (Flags (hdr f)) 0x8 =? 0).

Section Integrity.
(** [X] is the source behind the shared stream [raw]; [rcRead] is
    [rc.Read], which may advance the shared stream. *)
Context {X : Type} `{Reader X} {RC : Type}.
Variable rcRead : ReadFn (RC * RewindReader X).

(** Returns the shared stream and the error.  [StopBuffering], which
    the source defers, is applied on every return that follows
    [SetBufferSize]. *)
Definition readDataDescriptor (fuel : nat) (fr : fastFileReader RC)
  (raw : RewindReader X) : outcome (RewindReader X * option error) :=
  '(raw1, _, serr) <- Seek raw (descOff fr) 0 ;;
  match serr with
  | Some e => Ret (raw1, Some e)
  | None =>
      raw2 <- SetBufferSize raw1 (Z.of_nat dataDescriptorLen) ;;
      '(raw3, buf, rerr) <- ReadFull fuel raw2 dataDescriptorLen ;;
      match rerr with
      | Some e => Ret (StopBuffering raw3, Some e)
      | None =>
          let maybeSigUint32 := uint32 (firstn 4 buf) in
          let isSig := maybeSigUint32 =? dataDescriptorSignature in
          if negb isSig
             && ((maybeSigUint32 =? fileHeaderSignature)
                 || (maybeSigUint32 =? directoryHeaderSignature))
          then
            raw4 <- Rewind raw3 ;;
            Ret (StopBuffering (StopBuffering raw4), None)
          else
            let off := if isSig then 0%nat else 4%nat in
            '(raw4, bs, rerr2) <- ReadFull fuel raw3 (12 - off) ;;
            match rerr2 with
            | Some e => Ret (StopBuffering raw4, Some e)
            | None =>
                let b := firstn off buf ++ bs in
                if negb (uint32 b =? CRC32 (hdr (f fr)))
                then Ret (StopBuffering raw4, Some ErrChecksum)
                else Ret (StopBuffering raw4, None)
            end
      end
  end.

Definition FileRead : ReadFn (fastFileReader RC * RewindReader X) :=
  fun fuel st k =>
  let '(fr, raw) := st in
  match ferr fr with
  | Some e => Ret (st, [], Some e)
  | None =>
      '(rc', raw1, bs, rerr) <- rcRead fuel (rc fr, raw) k ;;
      let fr1 := mkFile_ rc' (descOff fr) (Crc32.Write (hash fr) bs)
                   (wrapU64 (nread fr + Z.of_nat (length bs))) (f fr) None in
      let store e := mkFile_ (rc fr1) (descOff fr1) (hash fr1) (nread fr1)
                       (f fr1) (Some e) in
      match rerr with
      | None => Ret ((fr1, raw1), bs, None)
      | Some EOF =>
          if negb (nread fr1 =? UncompressedSize64 (hdr (f fr)))
          then Ret ((fr1, raw1), [], Some ErrUnexpectedEOF)
          else if 0 <? descOff fr then
            '(raw2, derr) <- readDataDescriptor fuel fr1 raw1 ;;
            let e :=
              match derr with
              | Some e1 => if error_eqb e1 EOF then ErrUnexpectedEOF else e1
              | None =>
                  if negb (Crc32.Sum32 (hash fr1) =? CRC32 (hdr (f fr)))
                  then ErrChecksum else EOF
              end in
            Ret ((store e, raw2), bs, Some e)
          else
            let e :=
              if negb (CRC32 (hdr (f fr)) =? 0)
                 && negb (Crc32.Sum32 (hash fr1) =? CRC32 (hdr (f fr)))
              then ErrChecksum else EOF in
            Ret ((store e, raw1), bs, Some e)
      | Some e => Ret ((store e, raw1), bs, Some e)
      end
  end.

End Integrity.
(** *** [Open] *)

Section Open.
Context {R : Type} `{Reader R} `{Codecs}.

(** The shared stream of the catalog and the stream of one entry cut
    out of it, [rr = io.LimitReader(f.zipR.r, size)]. *)
Definition Shared : Type := RewindReader (MultiReader R).
Definition Inner : Type := RewindReader (LimitedReader Shared).

(** The reader [r] under the decompressor.  Each variant reads from
    the shared stream: the state kept here is the private part, and
    the shared stream is handed in and back at every read. *)
Inductive Src : Type :=
| SrcPlain (n : Z)
| SrcLegacy (zc : ZipCrypto) (n : Z)
| SrcAes (c : Cipher) (a : fastAuthReader (LimitedReader Shared)).

Definition plainRead : ReadFn (Z * Shared) := fun _ st k =>
  let '(n, raw) := st in
  let '(raw', n', bs, e) := limitRead raw n k in
  Ret ((n', raw'), bs, e).

Definition set_rawReader {A B} (rw : RewindReader A) (x : B)
  : RewindReader B :=
  Rewind.mk x (buf rw) (bufReadIdx rw) (rewound rw) (buffering rw)
    (bufferSize rw) (readIdx rw) (logged rw).

(** The auth reader of an entry holds the entry's own rewind reader,
    built over [rr]: [plug] puts the current shared stream under it
    and [shared_of] takes it back. *)
Definition plug (a : fastAuthReader (LimitedReader Shared)) (raw : Shared)
  : fastAuthReader (LimitedReader Shared) :=
  let inner := FastCrypto.raw a in
  mkAuth (dataN a)
    (set_rawReader inner (mkLimited raw (lrN (rawReader inner))))
    (authOff a) (mac a) (FastCrypto.err a) (auth a).

Definition shared_of (inner : Inner) : Shared := lrR (rawReader inner).

Definition srcRead : ReadFn (Src * Shared) := fun fuel st k =>
  let '(src, raw) := st in
  match src with
  | SrcPlain n =>
      '(n', raw', bs, e) <- plainRead fuel (n, raw) k ;;
      Ret ((SrcPlain n', raw'), bs, e)
  | SrcLegacy zc n =>
      '(zc', (n', raw'), bs, e) <-
         zipCryptoRead _ plainRead fuel (zc, (n, raw)) k ;;
      Ret ((SrcLegacy zc' n', raw'), bs, e)
  | SrcAes c a =>
      '(c', a', bs, e) <- cipherRead _ AuthRead fuel (c, plug a raw) k ;;
      Ret ((SrcAes c' a', shared_of (FastCrypto.raw a')), bs, e)
  end.

Definition RC : Type := (Decomp * Src)%type.

(** [rc.Read] for [rc = dcomp(r)]. *)
Definition rcRead : ReadFn (RC * Shared) := fun fuel st k =>
  let '((d, src), raw) := st in
  '(d', (src', raw'), bs, e) <- decompRead _ srcRead fuel (d, (src, raw)) k ;;
  Ret (((d', src'), raw'), bs, e).

Definition findBodyOffset (z : FastReader) (f : FastFile)
  : outcome (Shared * (Z + error)) :=
  '(raw1, _, serr) <- Seek (r z) (headerOffset f) 0 ;;
  match serr with
  | Some e => Ret (raw1, inr e)
  | None =>
      let '(raw2, bs, rerr) := RRead raw1 fileHeaderLen in
      match rerr with
      | Some e => Ret (raw2, inr e)
      | None =>
          let b := fill fileHeaderLen bs in
          if negb (uint32 b =? fileHeaderSignature)
          then Ret (raw2, inr ErrFormat)
          else
            let filenameLen := uint16 (skipn 26 b) in
            let extraLen := uint16 (skipn 28 b) in
            Ret (raw2, inl (filenameLen + extraLen))
      end
  end.

(** What [Open] returns as [rc]: the bare decompressor for an AE-2
    entry, the integrity reader otherwise. *)
Inductive Entry : Type :=
| EntryBare (rc : RC)
| EntryChecked (fr : fastFileReader RC).

Definition Open (fuel : nat) (z : FastReader) (f : FastFile)
  : outcome (Shared * (Entry + error)) :=
  '(raw1, off) <- findBodyOffset z f ;;
  match off with
  | inr e => Ret (raw1, inr e)
  | inl discardSize =>
      '(raw2, _, derr) <- Discard raw1 discardSize ;;
      match derr with
      | Some e => Ret (raw2, inr e)
      | None =>
          let size := wrap64 (CompressedSize64 (hdr f)) in
          '(raw3, src) <-
             (if IsEncrypted (hdr f) then
                if ae (hdr f) =? 0 then
                  '(n', raw', res) <-
                     NewZipCryptoReader _ plainRead fuel (size, raw2)
                       (password (hdr f)) ;;
                  match res with
                  | inl zc => Ret (raw', inl (SrcLegacy zc n'))
                  | inr e => Ret (raw', inr e)
                  end
                else
                  res <- newFastDecryptionReader (mkLimited raw2 size)
                           (hdr f) ;;
                  match res with
                  | inl dr =>
                      Ret (shared_of (FastCrypto.raw (ar dr)),
                           inl (SrcAes (cipher dr) (ar dr)))
                  | inr (rw, e) => Ret (shared_of rw, inr e)
                  end
              else Ret (raw2, inl (SrcPlain size))) ;;
          match src with
          | inr e => Ret (raw3, inr e)
          | inl src =>
              match decompressor (Method (hdr f)) with
              | None => Ret (raw3, inr ErrAlgorithm)
              | Some d =>
                  if isAE2 (hdr f) then Ret (raw3, inl (EntryBare (d, src)))
                  else
                    let dOff :=
                      if hasDataDescriptor f
                      then wrap64 (wrap64 (wrap64 (headerOffset f
                                                   + Z.of_nat fileHeaderLen)
                                           + discardSize) + size)
                      else 0 in
                    Ret (raw3,
                         inl (EntryChecked
                                (mkFile_ (d, src) dOff Crc32.NewIEEE 0 f
                                   None)))
              end
          end
      end
  end.

(** [Read] on what [Open] returned. *)
Definition EntryRead : ReadFn (Entry * Shared) := fun fuel st k =>
  let '(e, raw) := st in
  match e with
  | EntryBare rc =>
      '(rc', raw', bs, err) <- rcRead fuel (rc, raw) k ;;
      Ret ((EntryBare rc', raw'), bs, err)
  | EntryChecked fr =>
      '(fr', raw', bs, err) <- FileRead rcRead fuel (fr, raw) k ;;
      Ret ((EntryChecked fr', raw'), bs, err)
  end.

End Open.
End FastReader.

(** ** Stand-ins for the collaborators, used to run the model

    The store method is the only decompressor; the ciphers pass the
    bytes through; keys and tags are simple functions of their inputs.
    The general statements below hold for every collaborator. *)

Module Sample.

Definition keyLen (strength : Z) : nat :=
  if strength =? 1 then 16 else if strength =? 2 then 24
  else if strength =? 3 then 32 else 0.

Definition keys (pw salt : list byte) (klen : nat)
  : list byte * list byte * list byte :=
  (firstn klen (pw ++ salt), firstn klen (salt ++ pw),
   firstn 2 (pw ++ [Byte.x00; Byte.x00])).

Definition sumByte (bs : list byte) : byte :=
  match Byte.of_N (fold_left (fun a b => (a + Byte.to_N b) mod 256)%N bs 0%N)
  with Some b => b | None => Byte.x00 end.

Definition tag (key msg : list byte) : list byte :=
  repeat (sumByte (key ++ msg)) 20.

#[export] Instance crypto : Crypto := {|
  aesKeyLen := keyLen;
  generateKeys := keys;
  checkPasswordVerification := fun a b => 0 <? ConstantTimeCompare a b;
  Cipher := unit;
  decryptStream := fun key => match key with [] => None | _ => Some tt end;
  hmac_sha1 := tag;
  aesKeyLen_le := fun strength =>
    if strength =? 1 as b
    return (Nat.le (if b then 16 else if strength =? 2 then 24
                    else if strength =? 3 then 32 else 0) 32)
    then proj1 (Nat.leb_le 16 32) eq_refl
    else if strength =? 2 as b
      return (Nat.le (if b then 24 else if strength =? 3 then 32 else 0) 32)
      then proj1 (Nat.leb_le 24 32) eq_refl
      else if strength =? 3 as b return (Nat.le (if b then 32 else 0) 32)
        then proj1 (Nat.leb_le 32 32) eq_refl
        else proj1 (Nat.leb_le 0 32) eq_refl;
  hmac_sha1_size := fun key msg => repeat_length (sumByte (key ++ msg)) 20
|}.

(** A wrapping reader that hands the bytes through. *)
Definition through {A} (S : Type) (rd : ReadFn S) : ReadFn (A * S) :=
  fun fuel st k =>
  let '(x, s) := st in
  '(s', bs, e) <- rd fuel s k ;;
  Ret ((x, s'), bs, e).

#[export] Instance codecs : Codecs := {|
  IsEncrypted := fun h => Z.land (Flags h) 1 =? 1;
  isAE2 := fun h => ae h =? 2;
  ZipCrypto := unit;
  NewZipCryptoReader := fun S rd fuel s pw => Ret (s, inl tt);
  zipCryptoRead := @through unit;
  cipherRead := @through unit;
  Decomp := unit;
  decompressor := fun m => if m =? 0 then Some tt else None;
  decompRead := @through unit
|}.

(** [bytesOf l] turns numbers into bytes. *)
Definition bytesOf (l : list N) : list byte :=
  map (fun n => match Byte.of_N n with Some b => b | None => Byte.x00 end) l.

(** A strongly encrypted entry of strength 1 (8 bytes of salt): salt,
    verifier, five bytes of ciphertext and the ten-byte tag. *)
Definition pw : list byte := bytesOf [112; 119]%N.
Definition salt : list byte := bytesOf [1; 2; 3; 4; 5; 6; 7; 8]%N.
Definition ct : list byte := bytesOf [50; 51; 52; 53; 54]%N.
Definition aesHeader : FileHeader := mkHeader 1 0 0 25 5 2 1 pw.
Definition authKey : list byte := snd (fst (keys pw salt 16)).
Definition goodTag : list byte := firstn 10 (tag authKey ct).
Definition badTag : list byte := bytesOf [9; 9; 9; 9; 9; 9; 9; 9; 9; 9]%N.
Definition goodEntry : BytesReader := mkBytes (salt ++ pw ++ ct ++ goodTag).
Definition tamperedEntry : BytesReader := mkBytes (salt ++ pw ++ ct ++ badTag).
Definition cutEntry : BytesReader := mkBytes (salt ++ pw ++ ct).

(** A one-entry archive: a local header with a one-byte name, then the
    body.  Only the signature and the two lengths of the header are
    read by the code modelled here. *)
Definition localHeader : list byte :=
  bytesOf [80; 75; 3; 4; 20; 0; 0; 0; 0; 0; 0; 0; 0; 0;
           0; 0; 0; 0; 0; 0; 0; 0; 0; 0; 0; 0; 1; 0; 0; 0]%N.
Definition archive (tail : list byte) : list byte :=
  localHeader ++ bytesOf [97]%N ++ tail.

(** [abc], whose checksum is 0x352441c2, and a four-byte body whose
    checksum is zero. *)
Definition abc : list byte := bytesOf [97; 98; 99]%N.
Definition abcHeader : FileHeader := mkHeader 0 0 0x352441c2 3 3 0 0 [].
Definition plainFile (h : FileHeader) : FastReader.FastFile :=
  FastReader.mkFastFile h 0.
Definition catalog (h : FileHeader) (tail : list byte)
  : @FastReader.FastReader BytesReader :=
  FastReader.mkReader (Rewind.new (mkMulti [mkBytes (archive tail)]))
    [plainFile h].

(** An entry with flag bit 3 set and no name, its local header, and
    what may follow its body: another local header, the start of a
    central directory header, the end of central directory record. *)
Definition bareHeader : list byte :=
  bytesOf [80; 75; 3; 4; 20; 0; 8; 0; 0; 0; 0; 0; 0; 0;
           0; 0; 0; 0; 0; 0; 0; 0; 0; 0; 0; 0; 0; 0; 0; 0]%N.
Definition centralStart : list byte :=
  bytesOf [80; 75; 1; 2; 0; 0; 0; 0; 0; 0; 0; 0; 0; 0; 0; 0; 0; 0; 0; 0]%N.
Definition endRecord : list byte :=
  bytesOf [80; 75; 5; 6; 0; 0; 0; 0; 0; 0; 0; 0; 0; 0; 0; 0; 0; 0; 0; 0;
           0; 0; 0; 0]%N.
Definition descHeader : FileHeader := mkHeader 8 0 0x352441c2 3 3 0 0 [].
Definition descCatalog (tail : list byte)
  : @FastReader.FastReader BytesReader :=
  FastReader.mkReader
    (Rewind.new (mkMulti [mkBytes (bareHeader ++ abc ++ tail)]))
    [plainFile descHeader].

(** The integrity reader of that entry at the end of its body, and
    the shared stream there, positioned at the descriptor offset 33. *)
Definition atDescriptor : FastReader.fastFileReader unit :=
  FastReader.mkFile_ tt 33 0x352441c2 3 (plainFile descHeader) None.
Definition streamAt33 (tail : list byte) : Rewind.RewindReader BytesReader :=
  Rewind.set_readIdx (Rewind.new (mkBytes tail)) 33.

(** A directory that lists [C, A, B] while the local headers lie in
    the order [A, B, C]. *)
Definition hdrA : FileHeader := mkHeader 0 0 0 10 10 0 0 [].
Definition fileA : FastReader.FastFile := FastReader.mkFastFile hdrA 0.
Definition fileB : FastReader.FastFile := FastReader.mkFastFile hdrA 100.
Definition fileC : FastReader.FastFile := FastReader.mkFastFile hdrA 200.
Definition dirCAB : FastReader.DirectoryPass :=
  FastReader.mkPass None None
    [inl (FastReader.mkFile hdrA 200); inl (FastReader.mkFile hdrA 0);
     inl (FastReader.mkFile hdrA 100); inr ErrFormat].
Definition oneVolume : list (@FastReader.ZipFileReader BytesReader) :=
  [FastReader.mkVolume None (mkBytes [])].
Definition catalogABC : @FastReader.FastReader BytesReader :=
  FastReader.mkReader (Rewind.new (mkMulti [mkBytes []])) [fileA; fileB; fileC].

(** A decompressor that answers from a script, one item per read. *)
Definition Script : Type := list (list byte * option error).
Definition scriptRead {X} : ReadFn (Script * Rewind.RewindReader X) :=
  fun _ st k =>
  match fst st with
  | [] => Ret (st, [], Some EOF)
  | (bs, e) :: rest => Ret ((rest, snd st), firstn k bs, e)
  end.
(** It reports the end of its stream once, early, and then delivers
    the entry. *)
Definition stuttering : FastReader.fastFileReader Script :=
  FastReader.mkFile_ [([], Some EOF); (abc, Some EOF)] 0 Crc32.NewIEEE 0
    (plainFile abcHeader) None.

End Sample.

(** ** encoding.go: charset sniffing *)

Module Encoding.
Section Sniff.
(** [utf8.ValidString] of the Go library is a parameter; a Go string
    is its bytes. *)
Variable ValidString : list byte -> bool.

Definition Isutf8 (s : list byte) : bool := ValidString s.

(** The loop of [Isgbk] from index [i].  Every round advances [i], so
    [length data] rounds are enough; [data[i+1]] is evaluated only
    when the two tests on [data[i]] before it hold, and indexing past
    the end panics. *)
Fixpoint gbk_loop (fuel : nat) (data : list byte) (i : nat) : outcome bool :=
  if (i <? length data)%nat then
    match fuel with
    | O => OutOfFuel
    | S fuel' =>
        match nth_error data i with
        | None => Panic "index out of range"
        | Some b =>
            if (Byte.to_N b <=? 0xff)%N then gbk_loop fuel' data (i + 1)
            else if (0x81 <=? Byte.to_N b)%N && (Byte.to_N b <=? 0xfe)%N then
              match nth_error data (i + 1) with
              | None => Panic "index out of range"
              | Some c =>
                  if (0x40 <=? Byte.to_N c)%N && (Byte.to_N c <=? 0xfe)%N
                     && negb (Byte.to_N c =? 0xf7)%N
                  then gbk_loop fuel' data (i + 2)
                  else Ret false
              end
            else Ret false
        end
    end
  else Ret true.

Definition Isgbk (s : list byte) : outcome bool :=
  if Isutf8 s then Ret false
  else gbk_loop (length s) s 0.

End Sniff.
End Encoding.

(** ** Vocabulary of the statements *)

(** The successive calls [Read(p)] with [len(p)] running over [ks]:
    the final state and what each call returned. *)
Fixpoint readSeq {R} `{Reader R} (r : R) (ks : list nat)
  : R * list (list byte * option error) :=
  match ks with
  | [] => (r, [])
  | k :: ks' =>
      let '(r1, bs, e) := Read r k in
      let '(r2, res) := readSeq r1 ks' in
      (r2, (bs, e) :: res)
  end.

Definition delivered (res : list (list byte * option error)) : list byte :=
  concat (map fst res).

Definition sum (ks : list nat) : nat := fold_right Nat.add 0%nat ks.

(** Read in calls of [k] bytes until a call returns an error, [n]
    calls at most: the state, the bytes and the error. *)
Fixpoint drain {S} (rd : ReadFn S) (n fuel : nat) (st : S) (k : nat)
  (acc : list byte) : outcome (S * list byte * option error) :=
  match n with
  | O => Ret (st, acc, None)
  | S n' =>
      '(st', bs, e) <- rd fuel st k ;;
      match e with
      | Some _ => Ret (st', acc ++ bs, e)
      | None => drain rd n' fuel st' k (acc ++ bs)
      end
  end.

(** Open a strongly encrypted entry and read its ciphertext to the
    end: the bytes read, the final error, and the bytes that went into
    the authentication accumulator. *)
Definition openAndDrain {R} `{Reader R} `{Crypto} (src : R)
  (header : FileHeader)
  : outcome (list byte * option error * list byte) :=
  res <- FastCrypto.newFastDecryptionReader src header ;;
  match res with
  | inl dr =>
      '(a, bs, e) <- drain FastCrypto.AuthRead 16 16 (FastCrypto.ar dr) 64 [] ;;
      Ret (bs, e, FastCrypto.macData (FastCrypto.mac a))
  | inr (_, e) => Ret ([], Some e, [])
  end.

(** [Open] an entry and read it to the end. *)
Definition openAndRead {R} `{Reader R} `{Codecs}
  (z : @FastReader.FastReader R) (f : FastReader.FastFile)
  : outcome (list byte * option error) :=
  '(raw, res) <- FastReader.Open 16 z f ;;
  match res with
  | inr e => Ret ([], Some e)
  | inl entry =>
      '(_, bs, e) <- drain FastReader.EntryRead 16 16 (entry, raw) 64 [] ;;
      Ret (bs, e)
  end.

(** The catalog entry [init] makes of a parsed directory header. *)
Definition toFast (f : FastReader.File) : FastReader.FastFile :=
  FastReader.mkFastFile (FastReader.fileHeader f)
    (FastReader.fileHeaderOffset f).

(** The order of the catalog: ascending local header offsets. *)
Definition offsetLe (a b : FastReader.FastFile) : Prop :=
  FastReader.headerOffset a <= FastReader.headerOffset b.



(** [data] with the byte at index [i] replaced by [b]. *)
Definition corrupt (data : list byte) (i : nat) (b : byte) : list byte :=
  firstn i data ++ b :: skipn (S i) data.

(** A rewind reader is live when no buffered byte is left to replay. *)
Definition live {R} (r : Rewind.RewindReader R) : Prop :=
  Rewind.rewound r = false
  \/ (length (Rewind.buf r) <= Rewind.bufReadIdx r)%nat.

Definition noError (x : list byte * option error) : Prop := snd x = None.

(* ================================================================= *)
(** * Properties *)

Import Rewind.

(** ** The rewindable stream *)

(** Decides the size test of [SetBufferSize] for a size that is known. *)
Ltac allocates :=
  match goal with
  | |- context [(?z <? 0) || (maxAlloc <? ?z)] =>
      change ((z <? 0) || (maxAlloc <? z)) with false
  end.

Section RewindFacts.
Context {R : Type} `{Reader R}.


(** A size the runtime can allocate opens a session on a reader that
    is not buffering. *)
Lemma SetBufferSize_enters (r : RewindReader R) (size : Z) :
  0 < size <= maxAlloc -> buffering r = false ->
  SetBufferSize r size
  = Ret (mk (rawReader r) [] 0 (rewound r) true size (readIdx r) (logged r)).
Proof.
  intros Hs Hb. unfold SetBufferSize. rewrite Hb.
  replace (size =? 0) with false by (symmetry; apply Z.eqb_neq; lia).
  replace (size <? 0) with false by (symmetry; apply Z.ltb_ge; lia).
  replace (maxAlloc <? size) with false by (symmetry; apply Z.ltb_ge; lia).
  reflexivity.
Qed.

Lemma read_live r k :
  live r ->
  let '(raw', bs, e) := Read (rawReader r) k in
  exists r', read r k = (r', bs, e) /\ rawReader r' = raw' /\
             rewound r' = false /\ buffering r' = buffering r /\
             bufferSize r' = bufferSize r /\ readIdx r' = readIdx r /\
             buf r' = (if buffering r then buf r ++ bs else buf r).
Proof.
  intros Hl. unfold read.
  assert (Hc : rewound r && (bufReadIdx r <? length (buf r))%nat = false).
  { destruct Hl as [-> | Hl]; [reflexivity|].
    apply andb_false_intro2. apply Nat.ltb_ge. exact Hl. }
  rewrite Hc. destruct (Read (rawReader r) k) as [[raw' bs] e].
  destruct (buffering r); eexists; (split; [reflexivity|]); cbn; auto 10.
Qed.

Lemma RRead_live r k :
  live r ->
  let '(raw', bs, e) := Read (rawReader r) k in
  exists r', RRead r k = (r', bs, e) /\ rawReader r' = raw' /\
             rewound r' = false /\ buffering r' = buffering r /\
             bufferSize r' = bufferSize r /\
             buf r' = (if buffering r then buf r ++ bs else buf r).
Proof.
  intros Hl. pose proof (read_live r k Hl) as P.
  destruct (Read (rawReader r) k) as [[raw' bs] e].
  destruct P as (r' & E & P1 & P2 & P3 & P4 & P5 & P6).
  unfold RRead. rewrite E. eexists; split; [reflexivity|]. cbn. auto 10.
Qed.

Lemma RRead_replay r k :
  rewound r = true -> (bufReadIdx r < length (buf r))%nat ->
  let bs := firstn k (skipn (bufReadIdx r) (buf r)) in
  exists r', RRead r k = (r', bs, None) /\ rawReader r' = rawReader r /\
             rewound r' = true /\ buf r' = buf r /\
             bufReadIdx r' = (bufReadIdx r + length bs)%nat /\
             buffering r' = buffering r /\ bufferSize r' = bufferSize r.
Proof.
  intros Hr Hi. unfold RRead, read. rewrite Hr.
  apply Nat.ltb_lt in Hi. rewrite Hi. cbn.
  eexists; split; [reflexivity|]. cbn. auto 10.
Qed.

(** Live reads deliver what the underlying source delivers. *)
Lemma readSeq_live ks : forall r,
  live r ->
  snd (readSeq r ks) = snd (readSeq (rawReader r) ks) /\
  rawReader (fst (readSeq r ks)) = fst (readSeq (rawReader r) ks).
Proof.
  induction ks as [|k ks IH]; intros r Hl; cbn; [auto|].
  pose proof (RRead_live r k Hl) as P. unfold Read at 1 3. fold (@Read R _).
  change (RewindReader_Reader r k) with (RRead r k).
  destruct (Read (rawReader r) k) as [[raw' bs] e].
  destruct P as (r' & E & P1 & P2 & _). rewrite E.
  assert (Hl' : live r') by (left; exact P2).
  specialize (IH r' Hl'). rewrite P1 in IH.
  destruct (readSeq r' ks) as [r2 res], (readSeq raw' ks) as [r2' res'].
  cbn in *. destruct IH as [-> ->]. auto.
Qed.

Lemma firstn_plus {A} (a b : nat) : forall l : list A,
  firstn (a + b) l = firstn a l ++ firstn b (skipn a l).
Proof.
  induction a as [|a IH]; intros [|x l]; cbn; try reflexivity.
  - now rewrite firstn_nil.
  - now rewrite IH.
Qed.

(** Inside a buffering session every read is appended to the buffer. *)
Lemma session_buffers ks : forall r r2 res,
  live r -> buffering r = true -> readSeq r ks = (r2, res) ->
  buf r2 = buf r ++ delivered res /\ bufferSize r2 = bufferSize r /\
  buffering r2 = true.
Proof.
  induction ks as [|k ks IH]; intros r r2 res Hl Hb E; cbn in E.
  - inversion E; subst. cbn. now rewrite app_nil_r.
  - change (Read r k) with (RRead r k) in E.
    pose proof (RRead_live r k Hl) as P.
    destruct (Read (rawReader r) k) as [[raw' bs] e].
    destruct P as (r' & E' & _ & P2 & P3 & P4 & P5). rewrite E' in E.
    destruct (readSeq r' ks) as [r3 res'] eqn:E3. inversion E; subst.
    rewrite Hb in *.
    destruct (IH r' r2 res') as (Q1 & Q2 & Q3); auto; [now left|].
    rewrite Q1, P5, Q2, P4. unfold delivered. cbn.
    now rewrite app_assoc.
Qed.

(** After a rewind the reads walk through the buffer: as long as the
    reads before the last one leave a buffered byte, the bytes
    delivered are the next bytes of the buffer, without error and
    without touching the underlying source. *)
Lemma replay_reads ms : forall m r r4 res,
  rewound r = true ->
  (bufReadIdx r + sum ms < length (buf r))%nat ->
  readSeq r (ms ++ [m]) = (r4, res) ->
  delivered res = firstn (sum ms + m) (skipn (bufReadIdx r) (buf r)) /\
  Forall noError res /\ rawReader r4 = rawReader r /\
  buf r4 = buf r /\
  bufReadIdx r4
  = (bufReadIdx r + Nat.min (sum ms + m) (length (buf r) - bufReadIdx r))%nat.
Proof.
  induction ms as [|k ms IH]; intros m r r4 res Hr Hi E; cbn in E.
  - change (Read r m) with (RRead r m) in E. cbn in Hi.
    destruct (RRead_replay r m Hr) as (r' & E' & P1 & P2 & P3 & P4 & _);
      [lia|].
    rewrite E' in E. inversion E; subst. unfold delivered. cbn.
    rewrite app_nil_r. repeat split; auto.
    + repeat constructor.
    + rewrite P4, length_firstn, length_skipn. reflexivity.
  - change (Read r k) with (RRead r k) in E.
    change (sum (k :: ms)) with (k + sum ms)%nat in *.
    destruct (RRead_replay r k Hr) as (r' & E' & P1 & P2 & P3 & P4 & _);
      [lia|].
    rewrite E' in E.
    destruct (readSeq r' (ms ++ [m])) as [r3 res'] eqn:E3.
    inversion E; subst.
    assert (Hk : length (firstn k (skipn (bufReadIdx r) (buf r))) = k).
    { rewrite length_firstn, length_skipn. lia. }
    rewrite Hk in P4.
    destruct (IH m r' r4 res') as (Q1 & Q2 & Q3 & Q4 & Q5); auto.
    { rewrite P3, P4. lia. }
    unfold delivered in *. cbn. rewrite Q1, P3, P4.
    split; [|split; [|split; [|split]]].
    + rewrite <- Nat.add_assoc, (firstn_plus k (sum ms + m)), skipn_skipn.
      now rewrite (Nat.add_comm k).
    + constructor; [reflexivity|exact Q2].
    + congruence.
    + congruence.
    + rewrite Q5, P3, P4. lia.
Qed.

(** C6.  A buffering session, opened by [SetBufferSize(k)] with
    [k > 0] on a reader that is not buffering, reads the underlying
    source: its reads return what the same reads of the source return.
    After [Rewind()] the bytes the session delivered are delivered
    once more, in order and without error, by reads that leave the
    source alone; once the last of them is out, and at once when the
    session delivered none, every read is a read of the source. *)
Theorem rewind_replays_session_once (r0 : RewindReader R) (k : Z)
  (ks : list nat) :
  0 < k <= maxAlloc -> buffering r0 = false ->
  let session := snd (readSeq (rawReader r0) ks) in
  let b := delivered session in
  exists r1 r2 r3,
    SetBufferSize r0 k = Ret r1 /\
    readSeq r1 ks = (r2, session) /\
    rawReader r2 = fst (readSeq (rawReader r0) ks) /\
    Rewind r2 = Ret r3 /\
    (forall ms m r4 res',
       (sum ms < length b)%nat ->
       readSeq r3 (ms ++ [m]) = (r4, res') ->
       delivered res' = firstn (sum ms + m) b /\
       Forall noError res' /\
       rawReader r4 = rawReader r2 /\
       ((length b <= sum ms + m)%nat ->
        forall ks',
          snd (readSeq r4 ks') = snd (readSeq (rawReader r2) ks'))) /\
    (b = [] ->
     forall ks', snd (readSeq r3 ks') = snd (readSeq (rawReader r2) ks')).
Proof.
  intros Hk Hb session b.
  rewrite (SetBufferSize_enters r0 k Hk Hb).
  set (r1 := mk (rawReader r0) [] 0 (rewound r0) true k (readIdx r0)
                (logged r0)).
  assert (Hl1 : live r1) by (right; cbn; lia).
  destruct (readSeq_live ks r1 Hl1) as [S1 S2].
  destruct (readSeq r1 ks) as [r2 res] eqn:E. cbn [fst snd] in S1, S2.
  change (rawReader r1) with (rawReader r0) in S1, S2.
  destruct (session_buffers ks r1 r2 res Hl1 eq_refl E) as (B1 & B2 & B3).
  cbn in B1, B2. fold session in S1. subst res. fold b in B1.
  assert (E3 : Rewind r2
               = Ret (mk (rawReader r2) (buf r2) 0 true (buffering r2)
                         (bufferSize r2)
                         (wrap64 (readIdx r2 - Z.of_nat (length (buf r2))))
                         (logged r2))).
  { unfold Rewind. rewrite B2.
    replace (k =? 0) with false by (symmetry; apply Z.eqb_neq; lia).
    reflexivity. }
  eexists r1, r2, _. split; [reflexivity|]. split; [exact E|].
  split; [exact S2|]. split; [exact E3|]. split.
  - intros ms m r4 res' Hs E'.
    pose proof (fun Hr Hi => replay_reads ms m _ r4 res' Hr Hi E') as Q.
    destruct Q as (Q1 & Q2 & Q3 & Q4 & Q5);
      [reflexivity | cbn; rewrite B1; exact Hs |].
    cbn in Q1, Q3, Q4, Q5. rewrite B1 in Q1, Q5.
    repeat split; auto.
    intros Hall ks'. rewrite <- Q3.
    apply readSeq_live. right. rewrite Q5, Q4, B1. lia.
  - intros Hnil ks'.
    match goal with
    | |- snd (readSeq ?r3 _) = _ =>
        change (rawReader r2) with (rawReader r3);
        apply (readSeq_live ks' r3)
    end.
    right. cbn. rewrite B1, Hnil. cbn. lia.
Qed.

End RewindFacts.

Lemma rewind_replays_session_once_witness :
  exists r1 r2 r3,
    SetBufferSize (new (mkBytes (Sample.bytesOf [1; 2; 3; 4; 5; 6]%N))) 4
    = Ret r1 /\
    readSeq r1 [2; 2]%nat
    = (r2, [(Sample.bytesOf [1; 2]%N, None);
            (Sample.bytesOf [3; 4]%N, None)]) /\
    rawReader r2 = mkBytes (Sample.bytesOf [5; 6]%N) /\
    Rewind r2 = Ret r3 /\
    forall r4 res', readSeq r3 [3; 3]%nat = (r4, res') ->
      delivered res' = Sample.bytesOf [1; 2; 3; 4]%N /\
      Forall noError res' /\
      rawReader r4 = mkBytes (Sample.bytesOf [5; 6]%N) /\
      snd (readSeq r4 [2; 1]%nat)
      = [(Sample.bytesOf [5; 6]%N, None); ([], Some EOF)].
Proof.
  destruct (@rewind_replays_session_once BytesReader _
              (new (mkBytes (Sample.bytesOf [1; 2; 3; 4; 5; 6]%N))) 4
              [2; 2]%nat)
    as (r1 & r2 & r3 & E1 & E2 & E3 & E4 & Hrep & _);
    [unfold maxAlloc; lia | reflexivity |].
  exists r1, r2, r3.
  split; [exact E1|]. split; [exact E2|]. split; [exact E3|].
  split; [exact E4|].
  intros r4 res' E5.
  destruct (Hrep [3%nat] 3%nat r4 res') as (Q1 & Q2 & Q3 & Q4);
    [cbn; lia | exact E5 |].
  split; [exact Q1|]. split; [exact Q2|].
  split; [rewrite Q3; exact E3|].
  rewrite (Q4 ltac:(cbn; lia) [2; 1]%nat), E3. reflexivity.
Defined.

(** C10.  On a reader that is not buffering, [SetBufferSize(0)]
    panics; a buffering session has to be entered first, with a size
    the runtime can allocate, and from inside it leaving is legal
    while entering again panics.  A negative size, or one beyond what
    the runtime allocates, panics in [make]. *)
Theorem SetBufferSize_zero_needs_session {R} (r : RewindReader R) :
  buffering r = false ->
  SetBufferSize r 0 = Panic "reader is disabled" /\
  (forall size, 0 < size <= maxAlloc ->
    exists r1, SetBufferSize r size = Ret r1 /\ buffering r1 = true /\
      SetBufferSize r1 size = Panic "reader is buffering" /\
      exists r2, SetBufferSize r1 0 = Ret r2 /\ buffering r2 = false /\
        buf r2 = [] /\ bufferSize r2 = 0 /\
        SetBufferSize r2 0 = Panic "reader is disabled") /\
  (forall size, size < 0 \/ maxAlloc < size ->
    SetBufferSize r size
    = Panic "runtime error: makeslice: cap out of range").
Proof.
  intros Hb. split; [|split].
  - unfold SetBufferSize. cbn. rewrite Hb. reflexivity.
  - intros size Hs. rewrite (SetBufferSize_enters r size Hs Hb).
    eexists; split; [reflexivity|]. unfold SetBufferSize.
    replace (size =? 0) with false by (symmetry; apply Z.eqb_neq; lia).
    cbn. repeat split. eexists; split; [reflexivity|]. cbn. auto.
  - intros size Hs. unfold SetBufferSize. rewrite Hb.
    replace (size =? 0) with false
      by (symmetry; apply Z.eqb_neq; unfold maxAlloc in Hs; lia).
    replace ((size <? 0) || (maxAlloc <? size)) with true; [reflexivity|].
    symmetry. apply orb_true_iff.
    destruct Hs as [Hs | Hs]; [left | right]; apply Z.ltb_lt; exact Hs.
Qed.

Lemma SetBufferSize_zero_needs_session_witness :
  SetBufferSize (new (mkBytes [])) 0 = Panic "reader is disabled" /\
  SetBufferSize (new (mkBytes [])) (-1)
  = Panic "runtime error: makeslice: cap out of range" /\
  exists r1, SetBufferSize (new (mkBytes [])) 4 = Ret r1 /\
    buffering r1 = true /\
    SetBufferSize r1 4 = Panic "reader is buffering" /\
    exists r2, SetBufferSize r1 0 = Ret r2 /\ buffering r2 = false /\
      buf r2 = [] /\ bufferSize r2 = 0 /\
      SetBufferSize r2 0 = Panic "reader is disabled".
Proof.
  destruct (SetBufferSize_zero_needs_session (new (mkBytes [])) eq_refl)
    as (P0 & Pin & Pout).
  split; [exact P0|]. split; [apply Pout; left; lia|].
  apply Pin. unfold maxAlloc. lia.
Defined.

(** C2 (the code departs from the claim).  [Discard(128)] returns
    [128] without reading a byte, whatever the reader, and advances
    the cursor all the same; a short [Discard(5)] skips five bytes and
    advances the cursor by ten; [Discard(200)] skips 200 bytes and
    reports 72; [Seek(5)] from cursor 0 leaves the cursor at 10. *)
Theorem Discard_miscounts :
  (forall R (HR : Reader R) (r : RewindReader R),
     Discard r 128 = Ret (set_readIdx r (wrap64 (readIdx r + 128)), 128, None))
  /\
  (let src := new (mkBytes (repeat Byte.x41 300)) in
   (exists r', Discard src 5 = Ret (r', 5, None) /\
      length (remaining (rawReader r')) = 295%nat /\ readIdx r' = 10) /\
   (exists r', Discard src 200 = Ret (r', 72, None) /\
      length (remaining (rawReader r')) = 100%nat /\ readIdx r' = 272) /\
   (exists r', Seek src 5 0 = Ret (r', 5, None) /\
      length (remaining (rawReader r')) = 295%nat /\ readIdx r' = 10)).
Proof.
  split.
  - intros R HR r. reflexivity.
  - cbv zeta. repeat split; eexists; (split; [vm_compute; reflexivity|]);
      split; reflexivity.
Qed.

(** ** The catalog *)

Section CatalogFacts.
Import FastReader.

Lemma insert_perm f l : Permutation (f :: l) (insert f l).
Proof.
  induction l as [|g l IH]; cbn; [reflexivity|].
  destruct (headerOffset f <? headerOffset g); [reflexivity|].
  rewrite perm_swap. now apply perm_skip.
Qed.

Lemma insert_hd f l g :
  HdRel offsetLe g l -> offsetLe g f -> HdRel offsetLe g (insert f l).
Proof.
  intros Hl Hf. destruct l as [|h l]; cbn; [now constructor|].
  inversion Hl; subst.
  destruct (headerOffset f <? headerOffset h); now constructor.
Qed.

Lemma insert_sorted f l : Sorted offsetLe l -> Sorted offsetLe (insert f l).
Proof.
  induction 1 as [|g l Hs IH Hh]; cbn; [repeat constructor|].
  destruct (headerOffset f <? headerOffset g) eqn:E.
  - apply Z.ltb_lt in E. repeat constructor; auto. unfold offsetLe. lia.
  - apply Z.ltb_ge in E. constructor; [exact IH|].
    apply insert_hd; assumption.
Qed.

Lemma sortSlice_perm l : Permutation l (sortSlice l).
Proof.
  induction l as [|f l IH]; cbn; [reflexivity|].
  rewrite <- insert_perm. now apply perm_skip.
Qed.

Lemma sortSlice_sorted l : Sorted offsetLe (sortSlice l).
Proof.
  induction l as [|f l IH]; cbn; [constructor|]. now apply insert_sorted.
Qed.

Lemma visit_in_order {A} (l : list A) : forall acc,
  fold_left (fun a f => a ++ [f]) l acc = acc ++ l.
Proof.
  induction l as [|x l IH]; intros acc; cbn; [now rewrite app_nil_r|].
  now rewrite IH, <- app_assoc.
Qed.

Context {R : Type} `{Reader R} `{Codecs}.

(** C7.  When [init] succeeds, the entry list holds the entries parsed
    from the directory, rearranged in ascending order of their local
    header offsets, whatever the order of the directory, and [WalkDir]
    calls its function on them in that order. *)
Theorem init_orders_by_offset (dir : DirectoryPass)
  (vols : list (@ZipFileReader R)) (z : FastReader) :
  init dir vols = inl z ->
  exists fs, parseLoop (headerResults dir) [] = inl fs /\
    Permutation fs (files z) /\
    Sorted offsetLe (files z) /\
    WalkDir z (fun f visited => visited ++ [f]) [] = files z.
Proof.
  unfold init. intros E.
  destruct (directoryEndErr dir); [discriminate|].
  destruct (directorySeekErr dir); [discriminate|].
  destruct (parseLoop (headerResults dir) []) as [fs|]; [|discriminate].
  destruct (seekAll vols []); [|discriminate].
  inversion E; subst. cbn. exists fs. repeat split.
  - apply sortSlice_perm.
  - apply sortSlice_sorted.
  - unfold WalkDir. cbn. apply visit_in_order.
Qed.

End CatalogFacts.

Lemma init_orders_by_offset_witness :
  exists fs,
    FastReader.parseLoop (FastReader.headerResults Sample.dirCAB) [] = inl fs /\
    Permutation fs (FastReader.files Sample.catalogABC) /\
    Sorted offsetLe (FastReader.files Sample.catalogABC) /\
    FastReader.WalkDir Sample.catalogABC (fun f visited => visited ++ [f]) []
    = FastReader.files Sample.catalogABC.
Proof.
  apply (init_orders_by_offset Sample.dirCAB Sample.oneVolume Sample.catalogABC). reflexivity.
Defined.

Example init_CAB_walks_ABC :
  FastReader.init Sample.dirCAB Sample.oneVolume = inl Sample.catalogABC /\
  FastReader.WalkDir Sample.catalogABC (fun f visited => visited ++ [f]) []
  = [Sample.fileA; Sample.fileB; Sample.fileC].
Proof. split; reflexivity. Qed.

(** ** The authenticated-decryption reader *)

Section CryptoFacts.
Import FastCrypto.
Context {R : Type} `{Reader R} `{Crypto}.

(** The peek buffer of salt and verifier is at most 18 bytes long, a
    size [make] accepts. *)
Lemma peek_fits (strength : Z) :
  let size := Z.of_nat (aesKeyLen strength / 2 + 2) in
  (size <? 0) || (maxAlloc <? size) = false.
Proof.
  intros size. subst size. pose proof (aesKeyLen_le strength) as Hle.
  assert (Hd : (aesKeyLen strength / 2 <= 16)%nat).
  { apply (Nat.Div0.div_le_mono _ _ 2) in Hle. exact Hle. }
  apply orb_false_iff. split; apply Z.ltb_ge; unfold maxAlloc; lia.
Qed.



(** Every read of the auth reader writes to the accumulator exactly
    the bytes it took from the bounded ciphertext stream and returns
    them; a transport error alone leaves the accumulator as it was. *)
Lemma AuthRead_feeds_mac fuel (a a' : fastAuthReader R) k bs e :
  err a = None ->
  AuthRead fuel a k = Ret (a', bs, e) ->
  let '(_, _, bs0, e0) := limitRead (raw a) (dataN a) k in
  bs = bs0 /\
  match e0 with
  | Some EOF | None => macData (mac a') = macData (mac a) ++ bs
  | Some _ => mac a' = mac a
  end.
Proof.
  intros He. unfold AuthRead. rewrite He.
  destruct (limitRead (raw a) (dataN a) k) as [[[raw1 n1] bs0] e0].
  destruct e0 as [e0|].
  2:{ intros E. inversion E; subst. auto. }
  destruct e0; try (intros E; inversion E; subst; auto; fail).
  destruct (Seek raw1 (authOff a) 0) as [[[raw2 o] serr]| |];
    cbn [bind]; try discriminate.
  destruct serr as [se|].
  { intros E. inversion E; subst. auto. }
  destruct (copyLimited fuel raw2 10 []) as [[[raw3 ab] cerr]| |];
    cbn [bind]; try discriminate.
  destruct cerr as [ce|].
  { intros E. inversion E; subst. auto. }
  destruct (negb (length ab =? 10)%nat).
  { intros E. inversion E; subst. auto. }
  unfold checkAuthentication. cbn [mac macWrite].
  destruct (negb _); intros E; inversion E; subst; auto.
Qed.

Lemma fill_full k bs : length bs = k -> fill k bs = bs.
Proof.
  intros <-. unfold fill. rewrite firstn_app, Nat.sub_diag, firstn_all.
  cbn. apply app_nil_r.
Qed.



Lemma to_N_inj (a b : byte) : Byte.to_N a = Byte.to_N b -> a = b.
Proof.
  intros E. pose proof (Byte.of_to_N a) as Ha. rewrite E in Ha.
  rewrite Byte.of_to_N in Ha. now inversion Ha.
Qed.

Lemma ctc_loop_zero x : forall y v,
  length x = length y ->
  ctc_loop v x y = 0%N <-> v = 0%N /\ x = y.
Proof.
  induction x as [|a x IH]; intros [|b y] v Hl; cbn in *; try discriminate.
  - intuition.
  - rewrite IH by congruence. unfold byte_xor.
    rewrite N.lor_eq_0_iff, N.lxor_eq_0_iff. split.
    + intros [[-> E] ->]. apply to_N_inj in E. now subst.
    + intros [-> E]. inversion E; subst. auto.
Qed.

(** The comparison answers 1 on equal slices and 0 otherwise. *)
Lemma ConstantTimeCompare_spec x y :
  ConstantTimeCompare x y = (if list_eq_dec Byte.byte_eq_dec x y then 1 else 0).
Proof.
  unfold ConstantTimeCompare.
  destruct (length x =? length y)%nat eqn:El; cbn [negb].
  - apply Nat.eqb_eq in El. pose proof (ctc_loop_zero x y 0%N El) as Z.
    destruct (list_eq_dec Byte.byte_eq_dec x y) as [E|E].
    + replace (ctc_loop 0 x y =? 0)%N with true; [reflexivity|].
      symmetry. apply N.eqb_eq. apply Z. auto.
    + replace (ctc_loop 0 x y =? 0)%N with false; [reflexivity|].
      symmetry. apply N.eqb_neq. intros C. apply Z in C. tauto.
  - destruct (list_eq_dec Byte.byte_eq_dec x y) as [E|E]; [|reflexivity].
    subst. rewrite Nat.eqb_refl in El. discriminate.
Qed.

(** What the auth reader does with the trailer once the seek to it
    has succeeded: a short or failed copy is the decryption error, ten
    bytes that differ from the truncated tag are the authentication
    error, and the matching tag ends the stream normally. *)
Lemma AuthRead_trailer fuel (a : fastAuthReader R) k raw1 n1 bs raw2 o raw3
  ab cerr :
  err a = None ->
  limitRead (raw a) (dataN a) k = (raw1, n1, bs, Some EOF) ->
  Seek raw1 (authOff a) 0 = Ret (raw2, o, None) ->
  copyLimited fuel raw2 10 [] = Ret (raw3, ab, cerr) ->
  let expected :=
    firstn 10 (hmac_sha1 (macKey (mac a)) (macData (mac a) ++ bs)) in
  exists a',
    AuthRead fuel a k
    = Ret (a', bs,
           Some (if negb (match cerr with None => true | _ => false end)
                    || negb (length ab =? 10)%nat
                 then ErrDecryption
                 else if list_eq_dec Byte.byte_eq_dec expected ab
                      then EOF else ErrAuthentication)) /\
    err a' <> None.
Proof.
  intros He Hl Hs Hc expected. unfold AuthRead. rewrite He, Hl, Hs.
  cbn [bind]. rewrite Hc. cbn [bind].
  destruct cerr as [ce|]; cbn [negb orb].
  { eexists; split; [reflexivity|]. cbn. discriminate. }
  destruct (negb (length ab =? 10)%nat).
  { eexists; split; [reflexivity|]. cbn. discriminate. }
  unfold checkAuthentication, macSum. cbn [mac macWrite macKey macData].
  fold expected. rewrite ConstantTimeCompare_spec.
  destruct (list_eq_dec Byte.byte_eq_dec expected ab); cbn [Z.ltb Z.compare negb];
    eexists; (split; [reflexivity|]); cbn; discriminate.
Qed.

(** Every error the auth reader returns is stored, and a stored
    error is all that later reads return. *)
Lemma AuthRead_stores fuel (a a' : fastAuthReader R) k bs e :
  AuthRead fuel a k = Ret (a', bs, Some e) -> err a' = Some e.
Proof.
  unfold AuthRead. destruct (err a) as [e0|] eqn:E0.
  { intros E. inversion E; subst. exact E0. }
  destruct (limitRead (raw a) (dataN a) k) as [[[raw1 n1] bs0] e1].
  destruct e1 as [e1|]; [|discriminate].
  destruct e1; try (intros E; inversion E; subst; reflexivity).
  destruct (Seek raw1 (authOff a) 0) as [[[raw2 o] serr]| |];
    cbn [bind]; try discriminate.
  destruct serr as [se|].
  { intros E. inversion E; subst. reflexivity. }
  destruct (copyLimited fuel raw2 10 []) as [[[raw3 ab] cerr]| |];
    cbn [bind]; try discriminate.
  destruct cerr as [ce|].
  { intros E. inversion E; subst. reflexivity. }
  destruct (negb (length ab =? 10)%nat).
  { intros E. inversion E; subst. reflexivity. }
  unfold checkAuthentication.
  destruct (negb _); intros E; inversion E; subst; reflexivity.
Qed.

Lemma AuthRead_sticky fuel (a a' : fastAuthReader R) k bs e :
  AuthRead fuel a k = Ret (a', bs, Some e) ->
  forall fuel' k', AuthRead fuel' a' k' = Ret (a', [], Some e).
Proof.
  intros E fuel' k'. apply AuthRead_stores in E. unfold AuthRead.
  now rewrite E.
Qed.

End CryptoFacts.




(** C4 (the code departs from the claim).  On the sample entry the
    read that meets the end of the ciphertext fails in the seek to the
    trailer, with the tag intact, with the tag tampered with and with
    the tag missing alike: the trailer is never read, and neither the
    authentication error nor the decryption error is returned. *)
Theorem trailer_seek_fails_after_open :
  let seekError := Some (ErrNew "offset is less than readIdx") in
  @openAndDrain BytesReader _ Sample.crypto Sample.goodEntry Sample.aesHeader
  = Ret (Sample.ct, seekError, Sample.ct) /\
  @openAndDrain BytesReader _ Sample.crypto Sample.tamperedEntry
    Sample.aesHeader
  = Ret (Sample.ct, seekError, Sample.ct) /\
  @openAndDrain BytesReader _ Sample.crypto Sample.cutEntry Sample.aesHeader
  = Ret (Sample.ct, seekError, Sample.ct).
Proof. repeat split; vm_compute; reflexivity. Qed.

(** ** The checksum *)

Section CrcFacts.
Import Crc32.







Lemma byteZ_range v : 0 <= byteZ v < 256.
Proof. unfold byteZ. pose proof (Byte.to_N_bounded v). lia. Qed.












Lemma update_app c p q : update (update c p) q = update c (p ++ q).
Proof.
  unfold update, not32. rewrite fold_left_app. f_equal. f_equal.
  now rewrite Z.lxor_assoc, Z.lxor_nilpotent, Z.lxor_0_r.
Qed.

End CrcFacts.

(** ** The integrity reader *)

Section IntegrityFacts.
Import FastReader.
Context {X : Type} `{Reader X} {RC : Type}.
Variable rcRead : ReadFn (RC * RewindReader X).

Lemma drain_prefix {S} (rd : ReadFn S) n fuel k : forall st acc st' out e,
  drain rd n fuel st k acc = Ret (st', out, e) ->
  exists rest, out = acc ++ rest.
Proof.
  induction n as [|n IH]; intros st acc st' out e E; cbn in E.
  - inversion E; subst. exists []. now rewrite app_nil_r.
  - destruct (rd fuel st k) as [[[st1 bs] e1]| |]; cbn in E;
      try discriminate.
    destruct e1 as [e1|].
    + inversion E; subst. now exists bs.
    + apply IH in E. destruct E as [rest ->]. exists (bs ++ rest).
      now rewrite app_assoc.
Qed.

(** A stored error is returned by every later read, with no bytes. *)
Lemma FileRead_sticky fuel fr raw k e :
  ferr fr = Some e ->
  FileRead rcRead fuel (fr, raw) k = Ret ((fr, raw), [], Some e).
Proof. intros E. unfold FileRead. now rewrite E. Qed.

(** Every error a read returns is stored, except the truncation error
    of the length check, which is returned without being stored. *)
Lemma FileRead_stores fuel fr raw k fr' raw' bs e :
  FileRead rcRead fuel (fr, raw) k = Ret ((fr', raw'), bs, Some e) ->
  ferr fr' = Some e \/
  (e = ErrUnexpectedEOF /\ ferr fr' = None /\ bs = []).
Proof.
  unfold FileRead. destruct (ferr fr) as [e0|] eqn:E0.
  { intros E. inversion E; subst. now left. }
  destruct (rcRead fuel (rc fr, raw) k) as [[[[rc1 raw1] bs1] e1]| |];
    cbn [bind]; try discriminate.
  destruct e1 as [e1|]; [|discriminate].
  destruct e1; try (intros E; inversion E; subst; now left).
  destruct (negb _).
  { intros E. inversion E; subst. right. auto. }
  destruct (0 <? descOff fr).
  - destruct (readDataDescriptor _ _ _) as [[raw2 derr]| |]; cbn [bind];
      try discriminate.
    intros E. inversion E; subst. now left.
  - intros E. inversion E; subst. now left.
Qed.


End IntegrityFacts.

Section OpenFacts.
Import FastReader.
Context {R : Type} `{Reader R} `{Codecs}.





End OpenFacts.



Example corrupted_abc_is_rejected :
  @openAndRead BytesReader _ Sample.crypto Sample.codecs
    (Sample.catalog Sample.abcHeader Sample.abc)
    (Sample.plainFile Sample.abcHeader)
  = Ret (Sample.abc, Some EOF) /\
  @openAndRead BytesReader _ Sample.crypto Sample.codecs
    (Sample.catalog Sample.abcHeader (corrupt Sample.abc 1 Byte.x78))
    (Sample.plainFile Sample.abcHeader)
  = Ret (corrupt Sample.abc 1 Byte.x78, Some ErrChecksum).
Proof. split; vm_compute; reflexivity. Qed.

Section DescriptorFacts.
Import FastReader.
Context {X : Type} `{Reader X} {RC : Type}.

Lemma wrap64_add_l a b : wrap64 (wrap64 a + b) = wrap64 (a + b).
Proof. unfold wrap64. lia. Qed.

Lemma wrap64_idem a : wrap64 (wrap64 a) = wrap64 a.
Proof. unfold wrap64. lia. Qed.

Lemma wrap64_back a b c :
  in_int64 a -> wrap64 b = wrap64 (a + c) -> wrap64 (b - c) = a.
Proof. unfold wrap64, in_int64. lia. Qed.

Lemma RRead_live_idx (r r' : RewindReader X) k bs e :
  live r -> RRead r k = (r', bs, e) ->
  readIdx r' = wrap64 (readIdx r + Z.of_nat (length bs)).
Proof.
  intros Hl E. pose proof (read_live r k Hl) as P. unfold RRead in E.
  destruct (Read (rawReader r) k) as [[raw' bs'] e'].
  destruct P as (r1 & E1 & _ & _ & _ & _ & P & _). rewrite E1 in E.
  inversion E; subst. cbn. now rewrite P.
Qed.

(** [io.ReadFull] inside a buffering session: what it read is in the
    buffer, and the cursor has advanced by as much. *)
Lemma readAtLeast_session k fuel : forall (r r' : RewindReader X) acc out e,
  live r -> buffering r = true ->
  readAtLeast fuel r k acc = Ret (r', out, e) ->
  exists got, out = acc ++ got /\ buf r' = buf r ++ got /\
    buffering r' = true /\ bufferSize r' = bufferSize r /\
    wrap64 (readIdx r') = wrap64 (readIdx r + Z.of_nat (length got)).
Proof.
  induction fuel as [|fuel IH]; intros r r' acc out e Hl Hb E; cbn in E.
  - destruct (k <=? length acc)%nat; [|discriminate].
    inversion E; subst. exists []. rewrite !app_nil_r, Z.add_0_r. auto.
  - destruct (k <=? length acc)%nat.
    { inversion E; subst. exists []. rewrite !app_nil_r, Z.add_0_r. auto. }
    change (@Read (RewindReader X) _ r (k - length acc))
      with (RRead r (k - length acc)) in E.
    pose proof (RRead_live r (k - length acc) Hl) as P.
    pose proof (RRead_live_idx r) as Q.
    destruct (Read (rawReader r) (k - length acc)) as [[raw' bs] e1].
    destruct P as (r1 & E1 & _ & P2 & P3 & P4 & P5).
    specialize (Q r1 _ _ _ Hl E1). rewrite E1 in E. rewrite Hb in *.
    assert (Done : exists got, acc ++ bs = acc ++ got /\
              buf r1 = buf r ++ got /\ buffering r1 = true /\
              bufferSize r1 = bufferSize r /\
              wrap64 (readIdx r1)
              = wrap64 (readIdx r + Z.of_nat (length got))).
    { exists bs. split; [reflexivity|]. split; [exact P5|].
      split; [exact P3|]. split; [exact P4|].
      rewrite Q. apply wrap64_idem. }
    destruct e1 as [e1|].
    + destruct (k <=? length (acc ++ bs))%nat;
        [|destruct (_ && _)]; inversion E; subst; exact Done.
    + apply IH in E; [|now left|assumption].
      destruct E as (got & -> & B1 & B2 & B3 & B4).
      exists (bs ++ got). rewrite app_assoc, B1, P5, B3, P4, B4, Q.
      rewrite <- app_assoc, length_app, Nat2Z.inj_add, wrap64_add_l.
      repeat split; auto.
      * now rewrite app_assoc.
      * now rewrite Z.add_assoc.
Qed.

Lemma readAtLeast_enough {S} `{Reader S} k fuel : forall (r r' : S) acc out,
  readAtLeast fuel r k acc = Ret (r', out, None) -> (k <= length out)%nat.
Proof.
  induction fuel as [|fuel IH]; intros r r' acc out E; cbn in E.
  - destruct (k <=? length acc)%nat eqn:L; [|discriminate].
    inversion E; subst. now apply Nat.leb_le.
  - destruct (k <=? length acc)%nat eqn:L.
    { inversion E; subst. now apply Nat.leb_le. }
    destruct (Read r (k - length acc)) as [[r1 bs] [e1|]].
    + destruct (k <=? length (acc ++ bs))%nat eqn:L';
        [|destruct (_ && _); discriminate].
      inversion E; subst. now apply Nat.leb_le.
    + eapply IH, E.
Qed.

(** C8 (amended).  When the seek to the descriptor offset has
    succeeded and the 16-byte window read there starts with the
    signature of a local file header or of a central directory header,
    [readDataDescriptor] returns no error, whatever the declared
    checksum: it validates nothing.  It leaves the stream rewound: the
    cursor is where the seek left it, buffering is off, and the next
    read delivers the window again, starting with the signature,
    without touching the source. *)
Theorem absent_descriptor_is_rewound fuel (fr : fastFileReader RC)
  (raw raw1 raw2 raw3 : RewindReader X) (o : Z) (win : list byte) :
  Seek raw (descOff fr) 0 = Ret (raw1, o, None) ->
  in_int64 (readIdx raw1) ->
  SetBufferSize raw1 (Z.of_nat dataDescriptorLen) = Ret raw2 ->
  ReadFull fuel raw2 dataDescriptorLen = Ret (raw3, win, None) ->
  uint32 (firstn 4 win) = fileHeaderSignature \/
  uint32 (firstn 4 win) = directoryHeaderSignature ->
  exists raw',
    readDataDescriptor fuel fr raw = Ret (raw', None) /\
    readIdx raw' = readIdx raw1 /\ buffering raw' = false /\
    rawReader raw' = rawReader raw3 /\
    forall k, exists r'',
      RRead raw' k = (r'', firstn k win, None) /\
      rawReader r'' = rawReader raw3.
Proof.
  intros Hs Hin Hb Hr Hsig.
  assert (F2 : buf raw2 = [] /\ buffering raw2 = true /\
               bufferSize raw2 = Z.of_nat dataDescriptorLen /\
               readIdx raw2 = readIdx raw1).
  { revert Hb. unfold SetBufferSize. cbn [Z.of_nat dataDescriptorLen Z.eqb].
    destruct (buffering raw1); [discriminate|].
    intros E. inversion E; subst. cbn. auto. }
  destruct F2 as (B0 & B1 & B2 & B3).
  pose proof (fun a1 a2 =>
                readAtLeast_session dataDescriptorLen fuel raw2 raw3 [] win
                  None a1 a2 Hr) as G.
  destruct G as (got & G0 & G1 & G2 & G3 & G4);
    [right; rewrite B0; cbn; lia | exact B1 |].
  cbn in G0. subst got. rewrite B0 in G1. cbn in G1.
  pose proof (readAtLeast_enough dataDescriptorLen fuel raw2 raw3 [] win Hr)
    as Hlen.
  unfold readDataDescriptor. rewrite Hs. cbn [bind]. rewrite Hb. cbn [bind].
  rewrite Hr. cbn [bind].
  assert (Hc : negb (uint32 (firstn 4 win) =? dataDescriptorSignature)
               && ((uint32 (firstn 4 win) =? fileHeaderSignature)
                   || (uint32 (firstn 4 win) =? directoryHeaderSignature))
               = true).
  { destruct Hsig as [-> | ->]; reflexivity. }
  rewrite Hc. unfold Rewind. rewrite G3, B2.
  cbn [Z.of_nat dataDescriptorLen Z.eqb bind]. rewrite G1.
  eexists; split; [reflexivity|]. unfold StopBuffering.
  cbn [rawReader buf bufReadIdx rewound buffering bufferSize readIdx logged].
  split. { apply wrap64_back; [exact Hin|]. now rewrite G4, B3. }
  split; [reflexivity|]. split; [reflexivity|].
  intros k. unfold RRead, read.
  cbn [rawReader buf bufReadIdx rewound buffering bufferSize readIdx logged
       andb skipn].
  replace (0 <? length win)%nat with true
    by (symmetry; apply Nat.ltb_lt; unfold dataDescriptorLen in Hlen; lia).
  eexists; split; reflexivity.
Qed.

End DescriptorFacts.

Lemma absent_descriptor_is_rewound_witness :
  exists raw',
    FastReader.readDataDescriptor 16 Sample.atDescriptor
      (Sample.streamAt33 Sample.bareHeader) = Ret (raw', None) /\
    readIdx raw' = 33 /\ buffering raw' = false /\
    forall k, exists r'',
      RRead raw' k = (r'', firstn k (firstn 16 Sample.bareHeader), None).
Proof.
  destruct (@absent_descriptor_is_rewound BytesReader _ unit 16
              Sample.atDescriptor (Sample.streamAt33 Sample.bareHeader)
              (Sample.streamAt33 Sample.bareHeader)
              (Rewind.mk (mkBytes Sample.bareHeader) [] 0 false true 16 33 [])
              (Rewind.mk (mkBytes (skipn 16 Sample.bareHeader))
                 (firstn 16 Sample.bareHeader) 0 false true 16 49 [])
              33 (firstn 16 Sample.bareHeader))
    as (raw' & E & I & B & _ & D);
    [reflexivity | unfold in_int64; cbn; lia | reflexivity | reflexivity
    | left; reflexivity |].
  exists raw'. repeat split; try assumption.
  intros k. destruct (D k) as (r'' & Dk & _). now exists r''.
Defined.

(** C8 (as stated, refuted).  When the four bytes at the descriptor
    offset are the signature of the end of central directory record,
    [readDataDescriptor] takes them for the checksum field of a
    descriptor without signature: it reads on and returns the checksum
    error, with 24 bytes consumed and nothing rewound. *)
Lemma end_record_signature_is_validated :
  uint32 (firstn 4 Sample.endRecord) = directoryEndSignature /\
  exists raw',
    FastReader.readDataDescriptor 16 Sample.atDescriptor
      (Sample.streamAt33 Sample.endRecord) = Ret (raw', Some ErrChecksum) /\
    rewound raw' = false /\ remaining (rawReader raw') = [] /\
    readIdx raw' = 57.
Proof.
  split; [reflexivity|].
  eexists; split; [vm_compute; reflexivity|]. repeat split.
Qed.

Example descriptor_sniffing_end_to_end :
  @openAndRead BytesReader _ Sample.crypto Sample.codecs
    (Sample.descCatalog Sample.bareHeader) (Sample.plainFile Sample.descHeader)
  = Ret (Sample.abc, Some EOF) /\
  @openAndRead BytesReader _ Sample.crypto Sample.codecs
    (Sample.descCatalog Sample.centralStart)
    (Sample.plainFile Sample.descHeader)
  = Ret (Sample.abc, Some EOF) /\
  @openAndRead BytesReader _ Sample.crypto Sample.codecs
    (Sample.descCatalog Sample.endRecord) (Sample.plainFile Sample.descHeader)
  = Ret (Sample.abc, Some ErrChecksum) /\
  @openAndRead BytesReader _ Sample.crypto Sample.codecs
    (Sample.catalog Sample.descHeader (Sample.abc ++ Sample.bareHeader))
    (Sample.plainFile Sample.descHeader)
  = Ret (Sample.abc, Some (ErrNew "offset is less than readIdx")).
Proof. repeat split; vm_compute; reflexivity. Qed.

(** C9 (the code departs from the claim).  The integrity reader
    returns the truncation error of its length check without storing
    it: over a decompressor that reports the end early and delivers
    afterwards, the first read fails with the truncation error, the
    stored error stays empty, and the second read delivers the three
    bytes of the entry and ends the stream normally. *)
Theorem truncation_error_is_not_stored :
  let raw := new (mkBytes []) in
  exists fr1,
    FastReader.FileRead Sample.scriptRead 1%nat (Sample.stuttering, raw) 8%nat
    = Ret ((fr1, raw), [], Some ErrUnexpectedEOF) /\
    FastReader.ferr fr1 = None /\
    exists st2,
      FastReader.FileRead Sample.scriptRead 1%nat (fr1, raw) 8%nat
      = Ret (st2, Sample.abc, Some EOF).
Proof.
  cbv zeta. eexists. split; [vm_compute; reflexivity|].
  split; [reflexivity|]. eexists. vm_compute. reflexivity.
Qed.

(* ================================================================= *)
(** * Further properties of the code *)

(** ** io.go *)

Section StreamFacts.
Context {R : Type} `{Reader R}.

Lemma readSeq_live_cursor ks : forall r : RewindReader R,
  live r ->
  wrap64 (readIdx (fst (readSeq r ks)))
  = wrap64 (readIdx r + Z.of_nat (length (delivered (snd (readSeq r ks))))).
Proof.
  induction ks as [|k ks IH]; intros r Hl; cbn [readSeq].
  - cbn. now rewrite Z.add_0_r.
  - change (@Read (RewindReader R) _ r k) with (RRead r k).
    pose proof (RRead_live r k Hl) as P.
    pose proof (RRead_live_idx r) as Q.
    destruct (Read (rawReader r) k) as [[raw' bs] e].
    destruct P as (r1 & E1 & _ & P2 & _).
    specialize (Q r1 _ _ _ Hl E1). rewrite E1.
    specialize (IH r1 (or_introl P2)).
    destruct (readSeq r1 ks) as [r2 res]. cbn [fst snd] in *.
    unfold delivered in *. cbn [map concat fst].
    rewrite IH, Q, length_app, Nat2Z.inj_add, wrap64_add_l.
    now rewrite Z.add_assoc.
Qed.

(** X1.  A rewind reader that has never buffered is transparent: its
    reads return what the same reads of the underlying source return,
    bytes and errors alike, and its cursor is the number of bytes it
    has delivered (as an [int64]). *)
Theorem new_reader_is_transparent (raw : R) (ks : list nat) :
  snd (readSeq (new raw) ks) = snd (readSeq raw ks) /\
  rawReader (fst (readSeq (new raw) ks)) = fst (readSeq raw ks) /\
  wrap64 (readIdx (fst (readSeq (new raw) ks)))
  = wrap64 (Z.of_nat (length (delivered (snd (readSeq raw ks))))).
Proof.
  assert (Hl : live (new raw)) by (left; reflexivity).
  destruct (readSeq_live ks (new raw) Hl) as [A B].
  repeat split; [exact A|exact B|].
  rewrite (readSeq_live_cursor ks (new raw) Hl), A. reflexivity.
Qed.

(** X2.  A [Discard(n)] of fewer than 128 bytes on a reader with
    nothing to replay is one read of [n] bytes of the source; it
    returns the number of bytes that read delivered, with its error,
    and moves the cursor by twice that number. *)
Theorem Discard_short_counts_twice (r : RewindReader R) (n : Z) :
  0 <= n < 128 -> live r ->
  let '(raw', bs, e) := Read (rawReader r) (Z.to_nat n) in
  exists r',
    Discard r n = Ret (r', Z.of_nat (length bs), e) /\
    rawReader r' = raw' /\
    wrap64 (readIdx r')
    = wrap64 (readIdx r + 2 * Z.of_nat (length bs)).
Proof.
  intros Hn Hl. unfold Discard, discard.
  replace (n <? 0) with false by (symmetry; apply Z.ltb_ge; lia).
  replace (n <? 128) with true by (symmetry; apply Z.ltb_lt; lia).
  pose proof (RRead_live r (Z.to_nat n) Hl) as P.
  pose proof (RRead_live_idx r) as Q.
  destruct (Read (rawReader r) (Z.to_nat n)) as [[raw' bs] e].
  destruct P as (r1 & E1 & P1 & _).
  specialize (Q r1 _ _ _ Hl E1). rewrite E1. cbn [bind].
  eexists; split; [reflexivity|]. cbn [set_readIdx rawReader readIdx].
  split; [exact P1|]. rewrite Q, wrap64_idem, wrap64_add_l. f_equal. lia.
Qed.

Lemma discard_returns (r : RewindReader R) n :
  0 <= n -> exists res, discard r n = Ret res.
Proof.
  intros Hn. unfold discard.
  replace (n <? 0) with false by (symmetry; apply Z.ltb_ge; lia).
  destruct (n <? 128).
  - destruct (RRead r (Z.to_nat n)) as [[r1 bs] e]. eauto.
  - destruct (discard_loop _ r 0 n) as [r1 [[d e]|]]; [eauto|].
    destruct (negb _); [|eauto].
    destruct (RRead r1 _) as [[r2 bs] e]. eauto.
Qed.

Lemma Seek_outcome (r : RewindReader R) (offset whence : Z) :
  exists r' o e,
    Seek r offset whence = Ret (r', o, e) /\
    (whence <> 0 \/ offset < readIdx r -> r' = r /\ o = 0 /\ e <> None) /\
    (whence = 0 -> offset = readIdx r -> r' = r /\ o = offset /\ e = None).
Proof.
  unfold Seek. destruct (Z.eqb_spec whence 0) as [Hw|Hw]; cbn [negb].
  2:{ do 3 eexists. split; [reflexivity|]. split.
      - intros _. repeat split. discriminate.
      - intros C. contradiction. }
  destruct (Z.ltb_spec offset (readIdx r)) as [Hlt|Hge].
  { do 3 eexists. split; [reflexivity|]. split.
    - intros _. repeat split. discriminate.
    - intros _ C. lia. }
  destruct (Z.ltb_spec 0 (wrap64 (offset - readIdx r))) as [Hd|Hd].
  - unfold Discard.
    destruct (discard_returns r (wrap64 (offset - readIdx r)) ltac:(lia))
      as [[[r1 c] e1] E].
    rewrite E. cbn [bind]. destruct e1 as [e1|];
      do 3 eexists; (split; [reflexivity|]); split;
      try (intros [C|C]; [contradiction|lia]);
      intros _ C; rewrite C, Z.sub_diag in Hd; cbn in Hd; lia.
  - do 3 eexists. split; [reflexivity|]. split.
    + intros [C|C]; [contradiction|lia].
    + intros _ _. auto.
Qed.

(** X4.  [Seek] always returns: it never panics.  With a [whence]
    other than zero, or an offset behind the cursor, it returns an
    error and leaves the reader as it was; a seek to the cursor itself
    succeeds without reading. *)
Theorem Seek_returns_and_rejects (r : RewindReader R) (offset whence : Z) :
  exists r' o e,
    Seek r offset whence = Ret (r', o, e) /\
    (whence <> 0 \/ offset < readIdx r -> r' = r /\ o = 0 /\ e <> None) /\
    (whence = 0 -> offset = readIdx r -> r' = r /\ o = offset /\ e = None).
Proof. apply Seek_outcome. Qed.

(** X5.  [ReadByte] on a reader with nothing to replay reads one byte
    of the source and returns it, or zero when the read delivered
    nothing; the cursor moves by one more than the bytes read: by two
    for a byte, by one when the source is at its end. *)
Theorem ReadByte_counts_one_more (r : RewindReader R) :
  live r ->
  let '(raw', bs, e) := Read (rawReader r) 1 in
  exists r',
    ReadByte r = (r', hd Byte.x00 bs, e) /\ rawReader r' = raw' /\
    wrap64 (readIdx r') = wrap64 (readIdx r + Z.of_nat (length bs) + 1).
Proof.
  intros Hl. unfold ReadByte, readByte.
  pose proof (RRead_live r 1 Hl) as P.
  pose proof (RRead_live_idx r) as Q.
  destruct (Read (rawReader r) 1) as [[raw' bs] e].
  destruct P as (r1 & E1 & P1 & _).
  specialize (Q r1 _ _ _ Hl E1). rewrite E1.
  eexists; split; [reflexivity|]. cbn [set_readIdx rawReader readIdx].
  split; [exact P1|]. now rewrite Q, wrap64_idem, wrap64_add_l.
Qed.

End StreamFacts.

Section SessionFacts.
Context {R : Type} `{Reader R}.

Lemma RRead_outside_session (r r' : RewindReader R) k bs e :
  buffering r = false -> RRead r k = (r', bs, e) ->
  buf r' = buf r /\ bufferSize r' = bufferSize r /\ buffering r' = false.
Proof.
  intros Hb. unfold RRead, read. rewrite Hb.
  destruct (rewound r && _).
  - intros E. inversion E; subst. cbn. auto.
  - destruct (Read (rawReader r) k) as [[raw' bs'] e'].
    intros E. inversion E; subst. cbn. auto.
Qed.

(** X7.  Once buffering has been stopped, reads no longer touch the
    buffer: whatever is read afterwards, replayed or fresh, a later
    [Rewind] starts a replay of the buffer exactly as it was when
    buffering stopped. *)
Theorem stopped_buffer_survives_reads (r : RewindReader R) (ks : list nat) :
  bufferSize r <> 0 ->
  exists r3,
    Rewind (fst (readSeq (StopBuffering r) ks)) = Ret r3 /\
    buf r3 = buf r /\ bufReadIdx r3 = 0%nat /\ rewound r3 = true /\
    buffering r3 = false.
Proof.
  intros Hs.
  assert (K : forall ks (q : RewindReader R), buffering q = false ->
            buf (fst (readSeq q ks)) = buf q /\
            bufferSize (fst (readSeq q ks)) = bufferSize q /\
            buffering (fst (readSeq q ks)) = false).
  { clear. induction ks as [|k ks IH]; intros q Hb; cbn [readSeq]; [auto|].
    change (@Read (RewindReader R) _ q k) with (RRead q k).
    destruct (RRead q k) as [[q1 bs] e] eqn:E.
    destruct (RRead_outside_session q q1 k bs e Hb E) as (A & B & C).
    specialize (IH q1 C). destruct (readSeq q1 ks) as [q2 res].
    cbn [fst] in *. destruct IH as (A' & B' & C'). repeat split; congruence. }
  destruct (K ks (StopBuffering r) eq_refl) as (A & B & C).
  cbn [StopBuffering buf bufferSize] in A, B.
  unfold Rewind. rewrite B.
  replace (bufferSize r =? 0) with false by (symmetry; now apply Z.eqb_neq).
  eexists; split; [reflexivity|]. cbn. auto.
Qed.

(** X6.  [Rewind] takes the cursor back to where the buffering session
    began.  A session opened by [SetBufferSize(k)] with [k > 0]
    advances the cursor by the number of bytes its reads take from the
    source; [Rewind()] then gives the cursor the value it had before
    the session, and the buffer holds exactly those bytes. *)
Theorem Rewind_restores_cursor (r0 : RewindReader R) (k : Z) (ks : list nat) :
  0 < k <= maxAlloc -> buffering r0 = false -> in_int64 (readIdx r0) ->
  let b := delivered (snd (readSeq (rawReader r0) ks)) in
  exists r1, SetBufferSize r0 k = Ret r1 /\
    wrap64 (readIdx (fst (readSeq r1 ks)))
    = wrap64 (readIdx r0 + Z.of_nat (length b)) /\
    exists r3, Rewind (fst (readSeq r1 ks)) = Ret r3 /\
      readIdx r3 = readIdx r0 /\ buf r3 = b.
Proof.
  intros Hk Hb Hin b. rewrite (SetBufferSize_enters r0 k Hk Hb).
  eexists; split; [reflexivity|].
  match goal with |- context [readSeq ?q ks] => set (r1 := q) end.
  assert (Hl : live r1) by (right; cbn; lia).
  pose proof (readSeq_live_cursor ks r1 Hl) as C.
  destruct (readSeq_live ks r1 Hl) as [S1 _].
  change (rawReader r1) with (rawReader r0) in S1.
  destruct (readSeq r1 ks) as [r2 res] eqn:E. cbn [fst snd] in *.
  subst res. fold b in C. change (readIdx r1) with (readIdx r0) in C.
  destruct (session_buffers ks r1 r2 _ Hl eq_refl E) as (B1 & B2 & _).
  cbn [r1 buf bufferSize app] in B1, B2. fold b in B1.
  split; [exact C|]. unfold Rewind. rewrite B2.
  replace (k =? 0) with false by (symmetry; apply Z.eqb_neq; lia).
  eexists; split; [reflexivity|]. cbn [readIdx buf]. split; [|exact B1].
  rewrite B1. apply wrap64_back; [exact Hin|]. exact C.
Qed.

End SessionFacts.

Section BlockFacts.

Lemma RRead_bytes (r : RewindReader BytesReader) (w : list byte) (k : nat) :
  live r -> rawReader r = mkBytes w -> (0 < k <= length w)%nat ->
  exists r',
    RRead r k = (r', firstn k w, None) /\
    rawReader r' = mkBytes (skipn k w) /\ live r' /\
    readIdx r' = wrap64 (readIdx r + Z.of_nat k).
Proof.
  intros Hl Hw Hk. pose proof (RRead_live r k Hl) as P.
  pose proof (RRead_live_idx r) as Q. rewrite Hw in P.
  unfold Read at 1, BytesReader_Reader in P. cbn [remaining] in P.
  destruct w as [|x w]; [cbn in Hk; lia|].
  destruct P as (r' & E & P1 & P2 & _).
  specialize (Q r' _ _ _ Hl E). exists r'. repeat split; auto.
  - now left.
  - rewrite Q, length_firstn. f_equal. lia.
Qed.

Lemma discard_loop_bytes (m : nat) : forall fuel d n
  (r : RewindReader BytesReader) w,
  live r -> rawReader r = mkBytes w ->
  (m <= fuel)%nat -> (128 * m <= length w)%nat ->
  n <= d + 128 * (Z.of_nat m + 1) ->
  (m = 0%nat \/ d + 128 * Z.of_nat m < n) ->
  exists r',
    discard_loop fuel r d n = (r', None) /\
    rawReader r' = mkBytes (skipn (128 * m) w) /\ live r' /\
    wrap64 (readIdx r') = wrap64 (readIdx r + 128 * Z.of_nat m).
Proof.
  induction m as [|m IH]; intros fuel d n r w Hl Hw Hf Hlen Hn Hm.
  - exists r. replace (discard_loop fuel r d n) with (r, @None (Z * error)).
    + rewrite Nat.mul_0_r. cbn [skipn Z.of_nat].
      rewrite Z.mul_0_r, Z.add_0_r. auto.
    + destruct fuel; [reflexivity|]. cbn [discard_loop].
      replace (d + 128 <? n) with false; [reflexivity|].
      symmetry. apply Z.ltb_ge. lia.
  - destruct fuel as [|fuel]; [lia|]. cbn [discard_loop].
    replace (d + 128 <? n) with true by (symmetry; apply Z.ltb_lt; lia).
    destruct (RRead_bytes r w 128 Hl Hw ltac:(lia)) as (r1 & E & W1 & L1 & I1).
    rewrite E.
    destruct (IH fuel (d + 128) n r1 (skipn 128 w) L1 W1) as (r' & E' & W & L & I);
      try lia.
    { rewrite length_skipn. lia. }
    exists r'. rewrite E'. split; [reflexivity|].
    rewrite skipn_skipn in W. split.
    + rewrite W. do 2 f_equal. lia.
    + split; [exact L|]. rewrite I, I1, wrap64_add_l. f_equal. lia.
Qed.

(** X3.  A [Discard(n)] of 128 bytes or more from an in-memory source
    that holds at least [n] bytes, with nothing to replay: when [n] is
    a multiple of 128 it reads 128 bytes less than asked and returns
    [n]; otherwise it reads [n] bytes and returns only [n mod 128].
    Either way no error is reported. *)
Theorem Discard_blocks (r : RewindReader BytesReader) (w : list byte)
  (n : Z) :
  live r -> rawReader r = mkBytes w ->
  128 <= n <= Z.of_nat (length w) ->
  let skipped := if n mod 128 =? 0 then n - 128 else n in
  let returned := if n mod 128 =? 0 then n else n mod 128 in
  exists r',
    Discard r n = Ret (r', returned, None) /\
    rawReader r' = mkBytes (skipn (Z.to_nat skipped) w) /\
    wrap64 (readIdx r') = wrap64 (readIdx r + skipped + returned).
Proof.
  intros Hl Hw Hn skipped returned. unfold Discard, discard.
  replace (n <? 0) with false by (symmetry; apply Z.ltb_ge; lia).
  replace (n <? 128) with false by (symmetry; apply Z.ltb_ge; lia).
  rewrite Z.rem_mod_nonneg by lia.
  destruct (discard_loop_bytes (Z.to_nat ((n - 1) / 128))
              (Z.to_nat (n / 128)) 0 n r w Hl Hw)
    as (r1 & E & W1 & L1 & I1); try lia.
  rewrite E. subst skipped returned.
  destruct (Z.eqb_spec (n mod 128) 0) as [Hz|Hz]; cbn [negb bind].
  - eexists; split; [reflexivity|]. cbn [set_readIdx rawReader readIdx].
    split.
    + rewrite W1. do 2 f_equal. lia.
    + rewrite wrap64_idem, <- (wrap64_add_l (readIdx r1)), I1, wrap64_add_l.
      f_equal. lia.
  - destruct (RRead_bytes r1 _ (Z.to_nat (n mod 128)) L1 W1)
      as (r2 & E2 & W2 & L2 & I2).
    { rewrite length_skipn. lia. }
    rewrite E2. cbn [bind].
    eexists; split.
    { rewrite length_firstn, length_skipn.
      do 3 f_equal. lia. }
    cbn [set_readIdx rawReader readIdx]. split.
    + rewrite W2, skipn_skipn. do 2 f_equal. lia.
    + rewrite wrap64_idem, I2, wrap64_add_l, <- Z.add_assoc.
      rewrite <- (wrap64_add_l (readIdx r1)), I1, wrap64_add_l.
      f_equal. lia.
Qed.

End BlockFacts.

Lemma Discard_short_counts_twice_witness :
  let '(raw', bs, e) :=
    Read (rawReader (new (mkBytes (repeat Byte.x41 300)))) (Z.to_nat 5) in
  exists r',
    Discard (new (mkBytes (repeat Byte.x41 300))) 5
    = Ret (r', Z.of_nat (length bs), e) /\
    rawReader r' = raw' /\
    wrap64 (readIdx r')
    = wrap64 (readIdx (new (mkBytes (repeat Byte.x41 300)))
              + 2 * Z.of_nat (length bs)).
Proof.
  apply (Discard_short_counts_twice (new (mkBytes (repeat Byte.x41 300))) 5);
    [lia | left; reflexivity].
Defined.

Lemma Discard_blocks_witness :
  exists r',
    Discard (new (mkBytes (repeat Byte.x41 300))) 256 = Ret (r', 256, None) /\
    rawReader r' = mkBytes (skipn 128 (repeat Byte.x41 300)) /\
    wrap64 (readIdx r') = wrap64 (0 + 128 + 256).
Proof.
  apply (Discard_blocks (new (mkBytes (repeat Byte.x41 300)))
           (repeat Byte.x41 300) 256);
    [left; reflexivity | reflexivity | rewrite repeat_length; lia].
Defined.

Lemma ReadByte_counts_one_more_witness :
  let '(raw', bs, e) := Read (rawReader (new (mkBytes []))) 1 in
  exists r',
    ReadByte (new (mkBytes [])) = (r', hd Byte.x00 bs, e) /\
    rawReader r' = raw' /\
    wrap64 (readIdx r')
    = wrap64 (readIdx (new (mkBytes [])) + Z.of_nat (length bs) + 1).
Proof.
  apply (ReadByte_counts_one_more (new (mkBytes []))). left; reflexivity.
Defined.

Lemma stopped_buffer_survives_reads_witness :
  exists r3,
    Rewind (fst (readSeq
                   (StopBuffering
                      (Rewind.mk (mkBytes Sample.ct) Sample.salt 0 false true
                         8 8 []))
                   [3; 20; 2]%nat)) = Ret r3 /\
    buf r3 = Sample.salt /\ bufReadIdx r3 = 0%nat /\ rewound r3 = true /\
    buffering r3 = false.
Proof.
  apply (stopped_buffer_survives_reads
           (Rewind.mk (mkBytes Sample.ct) Sample.salt 0 false true 8 8 [])
           [3; 20; 2]%nat).
  discriminate.
Defined.

Lemma Rewind_restores_cursor_witness :
  exists r1,
    SetBufferSize (set_readIdx (new (mkBytes Sample.salt)) 40) 4 = Ret r1 /\
    wrap64 (readIdx (fst (readSeq r1 [3; 2]%nat))) = 45 /\
    exists r3, Rewind (fst (readSeq r1 [3; 2]%nat)) = Ret r3 /\
      readIdx r3 = 40 /\ buf r3 = firstn 5 Sample.salt.
Proof.
  destruct (Rewind_restores_cursor
              (set_readIdx (new (mkBytes Sample.salt)) 40) 4 [3; 2]%nat)
    as (r1 & E1 & C & r3 & E3 & I3 & B3);
    [unfold maxAlloc; lia | reflexivity | unfold in_int64; cbn; lia |].
  exists r1. split; [exact E1|]. split; [exact C|].
  exists r3. split; [exact E3|]. split; [exact I3 | exact B3].
Defined.

(** ** encoding.go *)

Lemma gbk_loop_accepts (fuel : nat) : forall (data : list byte) (i : nat),
  (length data - i <= fuel)%nat -> Encoding.gbk_loop fuel data i = Ret true.
Proof.
  induction fuel as [|fuel IH]; intros data i Hf; cbn [Encoding.gbk_loop];
    destruct (Nat.ltb_spec i (length data)) as [Hi|Hi]; try reflexivity;
    try lia.
  destruct (nth_error data i) as [b|] eqn:E.
  - pose proof (Byte.to_N_bounded b) as Hb.
    replace (Byte.to_N b <=? 255)%N with true
      by (symmetry; apply N.leb_le; exact Hb).
    apply IH. lia.
  - apply nth_error_None in E. lia.
Qed.

(** X8.  [Isgbk] answers true exactly when the string is not valid
    UTF-8: the test [data[i] <= 0xff] holds for every byte, so the
    double-byte range check is never reached, no string is rejected
    for its bytes, and the indexing never goes out of range. *)
Theorem Isgbk_is_not_utf8 (ValidString : list byte -> bool) (s : list byte) :
  Encoding.Isgbk ValidString s = Ret (negb (Encoding.Isutf8 ValidString s)).
Proof.
  unfold Encoding.Isgbk. destruct (Encoding.Isutf8 ValidString s);
    [reflexivity|].
  apply gbk_loop_accepts. lia.
Qed.

(** ** fast_crypto.go *)

Section DecryptionFacts.
Import FastCrypto.
Context {R : Type} `{Reader R} `{Crypto}.

Lemma newFastDecryptionReader_outcome (src : R) (header : FileHeader) :
  let saltLen := (aesKeyLen (aesStrength header) / 2)%nat in
  let '(src', _, perr) := Read src (saltLen + 2) in
  exists res,
    newFastDecryptionReader src header = Ret res /\
    match res with
    | inl _ => saltLen <> 0%nat /\ perr = None
    | inr (rw, e) =>
        (saltLen = 0%nat /\ e = ErrDecryption /\ rw = new src) \/
        (saltLen <> 0%nat /\ perr = Some e /\ rawReader rw = src') \/
        (saltLen <> 0%nat /\ perr = None /\
         (e = ErrPassword \/ e = ErrDecryption))
    end.
Proof.
  intros saltLen.
  assert (Hfit : (Z.of_nat (saltLen + 2) <? 0)
                 || (maxAlloc <? Z.of_nat (saltLen + 2)) = false)
    by apply (peek_fits (aesStrength header)).
  unfold newFastDecryptionReader. fold saltLen.
  clearbody saltLen.
  destruct (Read src (saltLen + 2)) as [[src' bs] perr] eqn:Hr.
  destruct (Nat.eqb_spec saltLen 0) as [Hs|Hs].
  { eexists; split; [reflexivity|]. left. auto. }
  unfold SetBufferSize.
  replace (Z.of_nat (saltLen + 2) =? 0) with false
    by (symmetry; apply Z.eqb_neq; lia).
  rewrite Hfit.
  unfold new. cbn [buffering bind]. unfold RRead, read.
  cbn [rewound andb rawReader buffering bufReadIdx buf readIdx logged
       bufferSize].
  rewrite Hr. unfold Rewind, set_readIdx.
  cbn [rewound andb rawReader buffering bufReadIdx buf readIdx logged
       bufferSize].
  destruct perr as [e|].
  { eexists; split; [reflexivity|]. right; left. auto. }
  replace (Z.of_nat (saltLen + 2) =? 0) with false
    by (symmetry; apply Z.eqb_neq; lia).
  cbn [bind].
  destruct (generateKeys _ _ _) as [[decKey authKey] pwv].
  destruct (checkPasswordVerification _ _); cbn [negb].
  2:{ eexists; split; [reflexivity|]. right; right. auto. }
  match goal with
  | |- context [Seek ?r ?o 0] =>
      destruct (Seek_outcome r o 0) as (r5 & o5 & e5 & E & _)
  end.
  rewrite E. cbn [bind].
  destruct (decryptStream decKey);
    eexists; (split; [reflexivity|]); cbv beta iota; auto 10.
Qed.

(** X9.  [newFastDecryptionReader] always returns: it never panics.
    When it returns no reader, the error is the decryption error for a
    strength without salt (the source is then untouched), or the error
    of the peek read, or, after a successful peek, the password error
    or the decryption error. *)
Theorem newFastDecryptionReader_returns (src : R) (header : FileHeader) :
  let saltLen := (aesKeyLen (aesStrength header) / 2)%nat in
  let '(src', _, perr) := Read src (saltLen + 2) in
  exists res,
    newFastDecryptionReader src header = Ret res /\
    match res with
    | inl _ => saltLen <> 0%nat /\ perr = None
    | inr (rw, e) =>
        (saltLen = 0%nat /\ e = ErrDecryption /\ rw = new src) \/
        (saltLen <> 0%nat /\ perr = Some e /\ rawReader rw = src') \/
        (saltLen <> 0%nat /\ perr = None /\
         (e = ErrPassword \/ e = ErrDecryption))
    end.
Proof. apply newFastDecryptionReader_outcome. Qed.

Lemma AuthRead_ok_state fuel (a a' : fastAuthReader R) k bs :
  AuthRead fuel a k = Ret (a', bs, None) -> err a' = None.
Proof.
  unfold AuthRead. destruct (err a) as [e0|]; [discriminate|].
  destruct (limitRead (raw a) (dataN a) k) as [[[raw1 n1] bs0] e1].
  destruct e1 as [e1|].
  2:{ intros E. inversion E; subst. reflexivity. }
  destruct e1; try discriminate.
  destruct (Seek raw1 (authOff a) 0) as [[[raw2 o] serr]| |];
    cbn [bind]; try discriminate.
  destruct serr as [se|]; [discriminate|].
  destruct (copyLimited fuel raw2 10 []) as [[[raw3 ab] cerr]| |];
    cbn [bind]; try discriminate.
  destruct cerr as [ce|]; [discriminate|].
  destruct (negb (length ab =? 10)%nat); [discriminate|].
  unfold checkAuthentication. destruct (negb _); discriminate.
Qed.

(** X12.  A failed auth reader stays failed: once a read has returned
    an error, reading on, however often and with whatever buffer,
    returns no byte and that same error, and changes nothing. *)
Theorem failed_auth_reader_stays_failed fuel (a a' : fastAuthReader R) k bs e :
  AuthRead fuel a k = Ret (a', bs, Some e) ->
  forall n fuel' k' acc,
    drain AuthRead (S n) fuel' a' k' acc = Ret (a', acc, Some e).
Proof.
  intros E n fuel' k' acc. cbn [drain].
  rewrite (AuthRead_sticky _ _ _ _ _ _ E fuel' k'). cbn [bind].
  now rewrite app_nil_r.
Qed.

(** X11.  The verdict on the trailer.  When the bounded ciphertext
    stream is at its end and the seek to the trailer has succeeded,
    the ten bytes read there are compared with the first ten bytes of
    the HMAC of everything written to the accumulator: equal, the read
    ends normally and the reader is marked authenticated; different,
    it fails with the authentication error; and a trailer that is not
    ten bytes long, or a failed copy, gives the decryption error. *)
Theorem trailer_verdict fuel (a : fastAuthReader R) k raw1 n1 bs raw2 o raw3
  ab cerr :
  err a = None -> auth a = false ->
  limitRead (raw a) (dataN a) k = (raw1, n1, bs, Some EOF) ->
  Seek raw1 (authOff a) 0 = Ret (raw2, o, None) ->
  copyLimited fuel raw2 10 [] = Ret (raw3, ab, cerr) ->
  let expected :=
    firstn 10 (hmac_sha1 (macKey (mac a)) (macData (mac a) ++ bs)) in
  let wellFormed :=
    match cerr with None => (length ab =? 10)%nat | Some _ => false end in
  let matches :=
    if list_eq_dec Byte.byte_eq_dec expected ab then true else false in
  exists a',
    AuthRead fuel a k
    = Ret (a', bs,
           Some (if negb wellFormed then ErrDecryption
                 else if matches then EOF else ErrAuthentication)) /\
    auth a' = wellFormed && matches /\ raw a' = raw3.
Proof.
  intros He Ha Hl Hs Hc expected wellFormed matches.
  unfold AuthRead. rewrite He, Hl, Hs. cbn [bind]. rewrite Hc. cbn [bind].
  subst wellFormed. destruct cerr as [ce|]; cbn [negb].
  { eexists; split; [reflexivity|]. cbn. auto. }
  destruct (length ab =? 10)%nat; cbn [negb andb].
  2:{ eexists; split; [reflexivity|]. cbn. auto. }
  unfold checkAuthentication, macSum. cbn [mac macWrite macKey macData].
  fold expected. rewrite ConstantTimeCompare_spec. subst matches.
  destruct (list_eq_dec Byte.byte_eq_dec expected ab);
    cbn [Z.ltb Z.compare negb];
    eexists; (split; [reflexivity|]); cbn; auto.
Qed.

End DecryptionFacts.

Section MacFacts.
Import FastCrypto.
Context `{Crypto}.

Lemma limitRead_bytes_error (r r' : RewindReader BytesReader) n k n' bs e :
  limitRead r n k = (r', n', bs, e) -> e = None \/ e = Some EOF.
Proof.
  unfold limitRead. destruct (n <=? 0).
  { intros E. inversion E. auto. }
  change (@Read (RewindReader BytesReader) _) with (@RRead BytesReader _).
  unfold RRead, read. destruct (rewound r && _).
  { intros E. inversion E. auto. }
  unfold Read, BytesReader_Reader.
  destruct (remaining (rawReader r)); destruct (buffering r);
    intros E; inversion E; auto.
Qed.

(** X10.  Over an in-memory source, the accumulator receives exactly
    the bytes the auth reader hands out, in order: after any run of
    reads, what was written to the HMAC is what was there before
    followed by the bytes delivered. *)
Theorem mac_is_delivered_bytes n : forall fuel
  (a a' : fastAuthReader BytesReader) k acc out e,
  err a = None ->
  drain AuthRead n fuel a k acc = Ret (a', out, e) ->
  exists got, out = acc ++ got /\
    macData (mac a') = macData (mac a) ++ got.
Proof.
  induction n as [|n IH]; intros fuel a a' k acc out e He E; cbn [drain] in E.
  - inversion E; subst. exists []. now rewrite !app_nil_r.
  - destruct (AuthRead fuel a k) as [[[a1 bs] e1]| |] eqn:E1;
      cbn [bind] in E; try discriminate.
    pose proof (AuthRead_feeds_mac _ _ _ _ _ _ He E1) as F.
    destruct (limitRead (raw a) (dataN a) k) as [[[r1 n1] bs0] e0] eqn:L.
    destruct F as [_ F].
    assert (M : macData (mac a1) = macData (mac a) ++ bs).
    { destruct (limitRead_bytes_error _ _ _ _ _ _ _ L) as [-> | ->]; exact F. }
    destruct e1 as [e1|].
    + inversion E; subst. now exists bs.
    + apply AuthRead_ok_state in E1. apply IH in E; [|exact E1].
      destruct E as (got & -> & G). exists (bs ++ got).
      now rewrite G, M, !app_assoc.
Qed.

End MacFacts.

Lemma failed_auth_reader_stays_failed_witness :
  exists a' e,
    @FastCrypto.AuthRead BytesReader _ Sample.crypto 4
      (FastCrypto.mkAuth 0 (new (mkBytes [])) 5 (FastCrypto.mkMac [] [])
         None false) 8 = Ret (a', [], Some e) /\
    forall n fuel' k' acc,
      drain (@FastCrypto.AuthRead BytesReader _ Sample.crypto) (S n) fuel'
        a' k' acc = Ret (a', acc, Some e).
Proof.
  assert (E : exists a' e,
            @FastCrypto.AuthRead BytesReader _ Sample.crypto 4
              (FastCrypto.mkAuth 0 (new (mkBytes [])) 5
                 (FastCrypto.mkMac [] []) None false) 8
            = Ret (a', [], Some e)) by (vm_compute; eauto).
  destruct E as (a' & e & E). exists a', e. split; [exact E|].
  exact (@failed_auth_reader_stays_failed BytesReader _ Sample.crypto
           _ _ _ _ _ _ E).
Defined.

Lemma trailer_verdict_witness :
  let a :=
    FastCrypto.mkAuth 0 (set_readIdx (new (mkBytes Sample.goodTag)) 5) 5
      (FastCrypto.mkMac Sample.authKey Sample.ct) None false in
  exists a',
    @FastCrypto.AuthRead BytesReader _ Sample.crypto 4 a 8
    = Ret (a', [], Some EOF) /\
    FastCrypto.auth a' = true.
Proof.
  intros a.
  assert (C : exists raw3,
            copyLimited 4 (FastCrypto.raw a) 10 []
            = Ret (raw3, Sample.goodTag, None)) by (vm_compute; eauto).
  destruct C as (raw3 & C).
  destruct (@trailer_verdict BytesReader _ Sample.crypto 4 a 8
              (FastCrypto.raw a) 0 [] (FastCrypto.raw a) 5 raw3
              Sample.goodTag None)
    as (a' & E & A & _);
    [reflexivity | reflexivity | reflexivity | reflexivity | exact C |].
  exists a'. split; [exact E | exact A].
Defined.

Lemma mac_is_delivered_bytes_witness :
  let a :=
    @FastCrypto.newFastAuthReader BytesReader Sample.authKey 5
      (new (mkBytes (Sample.ct ++ Sample.goodTag))) 5 in
  exists a' out e,
    drain (@FastCrypto.AuthRead BytesReader _ Sample.crypto) 2 4 a 2 []
    = Ret (a', out, e) /\
    exists got, out = [] ++ got /\
      FastCrypto.macData (FastCrypto.mac a')
      = FastCrypto.macData (FastCrypto.mac a) ++ got.
Proof.
  intros a.
  assert (E : exists a' out e,
            drain (@FastCrypto.AuthRead BytesReader _ Sample.crypto) 2 4 a 2 []
            = Ret (a', out, e)) by (vm_compute; eauto).
  destruct E as (a' & out & e & E). exists a', out, e. split; [exact E|].
  exact (@mac_is_delivered_bytes Sample.crypto 2 4 a a' 2 [] out e
           eq_refl E).
Defined.

(** ** fast_reader.go *)

Section DirectoryFacts.
Import FastReader.

Lemma parseLoop_until fs e rest : forall acc,
  parseLoop (map inl fs ++ inr e :: rest) acc
  = if error_eqb e ErrFormat || error_eqb e ErrUnexpectedEOF
    then inl (acc ++ map toFast fs) else inr e.
Proof.
  induction fs as [|f fs IH]; intros acc; cbn [map app parseLoop].
  - destruct (_ || _); [now rewrite app_nil_r | reflexivity].
  - rewrite IH. destruct (_ || _); [|reflexivity].
    now rewrite <- app_assoc.
Qed.

Context {R : Type}.

Lemma seekAll_ok (vols : list (@ZipFileReader R)) : forall acc,
  (forall v, In v vols -> seekStart v = None) ->
  seekAll vols acc = inl (acc ++ map stream vols).
Proof.
  induction vols as [|v vols IH]; intros acc Hv; cbn [seekAll map].
  - now rewrite app_nil_r.
  - rewrite (Hv v (or_introl eq_refl)), IH by (intros; apply Hv; now right).
    now rewrite <- app_assoc.
Qed.

(** X13.  [init] stops the enumeration of the directory at the first
    record that fails to parse.  When that failure is the format error
    or the unexpected end of input, it is not reported: [init]
    succeeds with the entries parsed before it, and whatever follows
    the bad record is ignored.  Any other failure makes [init] fail
    with that error. *)
Theorem directory_ends_at_bad_record (dir : DirectoryPass)
  (vols : list (@ZipFileReader R)) (fs : list File) (e : error)
  (rest : list (File + error)) :
  directoryEndErr dir = None -> directorySeekErr dir = None ->
  headerResults dir = map inl fs ++ inr e :: rest ->
  (forall v, In v vols -> seekStart v = None) ->
  if error_eqb e ErrFormat || error_eqb e ErrUnexpectedEOF
  then exists z, init dir vols = inl z /\
         Permutation (map toFast fs) (files z) /\
         r z = new (mkMulti (map stream vols))
  else init dir vols = inr e.
Proof.
  intros He Hs Hh Hv. unfold init. rewrite He, Hs, Hh, parseLoop_until.
  destruct (_ || _); [|reflexivity].
  rewrite (seekAll_ok vols [] Hv). cbn [app].
  eexists; split; [reflexivity|]. cbn [files r]. split; [|reflexivity].
  apply sortSlice_perm.
Qed.

End DirectoryFacts.

Lemma directory_ends_at_bad_record_witness :
  exists z,
    FastReader.init Sample.dirCAB Sample.oneVolume = inl z /\
    Permutation
      (map toFast
         [FastReader.mkFile Sample.hdrA 200; FastReader.mkFile Sample.hdrA 0;
          FastReader.mkFile Sample.hdrA 100])
      (FastReader.files z) /\
    FastReader.r z = new (mkMulti (map FastReader.stream Sample.oneVolume)).
Proof.
  apply (directory_ends_at_bad_record Sample.dirCAB Sample.oneVolume
           [FastReader.mkFile Sample.hdrA 200; FastReader.mkFile Sample.hdrA 0;
            FastReader.mkFile Sample.hdrA 100] ErrFormat []);
    try reflexivity.
  intros v [<-|[]]. reflexivity.
Defined.

Section OpenMoreFacts.
Import FastReader.
Context {R : Type} `{Reader R} `{Codecs}.

Lemma uint16_nonneg b : 0 <= uint16 b.
Proof.
  unfold uint16. destruct b as [|b0 [|b1 b]]; try lia.
  apply Z.lor_nonneg. split; [apply byteZ_range|].
  apply Z.shiftl_nonneg, byteZ_range.
Qed.

Lemma findBodyOffset_returns (z : FastReader) (f : FastFile) :
  exists raw res,
    findBodyOffset z f = Ret (raw, res) /\
    forall off, res = inl off -> 0 <= off.
Proof.
  unfold findBodyOffset.
  destruct (Seek_outcome (r z) (headerOffset f) 0)
    as (r1 & o & e & E & _).
  rewrite E. cbn [bind]. destruct e as [e|].
  { do 2 eexists. split; [reflexivity|]. discriminate. }
  destruct (RRead r1 fileHeaderLen) as [[r2 bs] [e|]].
  { do 2 eexists. split; [reflexivity|]. discriminate. }
  destruct (negb _).
  { do 2 eexists. split; [reflexivity|]. discriminate. }
  do 2 eexists. split; [reflexivity|]. intros off E'. inversion E'.
  apply Z.add_nonneg_nonneg; apply uint16_nonneg.
Qed.

(** X14.  [Open] always returns for an entry that is not encrypted or
    is strongly encrypted: whatever the stream holds, it does not
    panic, neither in the seek to the header, nor in the discard of
    name and extra field, nor in the set-up of the decryption. *)
Theorem Open_returns fuel (z : FastReader) (f : FastFile) :
  IsEncrypted (hdr f) = false \/ ae (hdr f) <> 0 ->
  exists raw res, Open fuel z f = Ret (raw, res).
Proof.
  intros Hk. unfold Open.
  destruct (findBodyOffset_returns z f) as (raw1 & res & E & Hoff).
  rewrite E. cbn [bind]. destruct res as [off|e]; [|eauto].
  unfold Discard.
  destruct (discard_returns raw1 off (Hoff off eq_refl)) as [[[r2 c] e2] E2].
  rewrite E2. cbn [bind]. destruct e2 as [e2|]; [eauto|].
  assert (S : exists raw3 src,
            (if IsEncrypted (hdr f)
             then
               if ae (hdr f) =? 0
               then
                 '(n', raw', res) <-
                    NewZipCryptoReader _ plainRead fuel
                      (wrap64 (CompressedSize64 (hdr f)),
                       set_readIdx r2 (wrap64 (readIdx r2 + c)))
                      (password (hdr f)) ;;
                 match res with
                 | inl zc => Ret (raw', inl (SrcLegacy zc n'))
                 | inr e => Ret (raw', inr e)
                 end
               else
                 res <- FastCrypto.newFastDecryptionReader
                          (mkLimited (set_readIdx r2 (wrap64 (readIdx r2 + c)))
                             (wrap64 (CompressedSize64 (hdr f)))) (hdr f) ;;
                 match res with
                 | inl dr =>
                     Ret (shared_of (FastCrypto.raw (FastCrypto.ar dr)),
                          inl (SrcAes (FastCrypto.cipher dr)
                                 (FastCrypto.ar dr)))
                 | inr (rw, e) => Ret (shared_of rw, inr e)
                 end
             else Ret (set_readIdx r2 (wrap64 (readIdx r2 + c)),
                       inl (SrcPlain (wrap64 (CompressedSize64 (hdr f))))))
            = Ret (raw3, src)).
  { destruct (IsEncrypted (hdr f)) eqn:Ee; [|eauto].
    destruct Hk as [Hk|Hk]; [discriminate|].
    apply Z.eqb_neq in Hk. rewrite Hk.
    pose proof (newFastDecryptionReader_outcome
                  (mkLimited (set_readIdx r2 (wrap64 (readIdx r2 + c)))
                     (wrap64 (CompressedSize64 (hdr f)))) (hdr f)) as P.
    cbv zeta in P. destruct (Read _ _) as [[s' b'] pe] in P.
    destruct P as (res & -> & _). cbn [bind].
    destruct res as [dr|[rw e]]; eauto. }
  destruct S as (raw3 & src & ->). cbn [bind].
  destruct src as [src|e]; [|eauto].
  destruct (decompressor (Method (hdr f))); [|eauto].
  destruct (isAE2 (hdr f)); eauto.
Qed.

(** X15.  For a compression method the registry does not know, [Open]
    never hands out a reader: whatever else happens, its result is an
    error. *)
Theorem unknown_method_yields_no_reader fuel (z : FastReader) (f : FastFile)
  raw res :
  decompressor (Method (hdr f)) = None ->
  Open fuel z f = Ret (raw, res) ->
  exists e, res = inr e.
Proof.
  intros Hd. unfold Open.
  destruct (findBodyOffset z f) as [[raw1 [off|e1]]| |]; cbn [bind];
    try discriminate.
  2:{ intros E. inversion E. eauto. }
  destruct (Discard raw1 off) as [[[raw2 n2] [e2|]]| |]; cbn [bind];
    try discriminate.
  { intros E. inversion E. eauto. }
  match goal with
  | |- bind ?m _ = _ -> _ => destruct m as [[raw3 [src|e3]]| |]
  end; cbn [bind]; try discriminate.
  - rewrite Hd. intros E. inversion E. eauto.
  - intros E. inversion E. eauto.
Qed.

End OpenMoreFacts.

Lemma Open_returns_witness :
  exists raw res,
    @FastReader.Open BytesReader _ Sample.crypto Sample.codecs 16
      (Sample.catalog Sample.abcHeader Sample.abc)
      (Sample.plainFile Sample.abcHeader) = Ret (raw, res).
Proof.
  apply (@Open_returns BytesReader _ Sample.crypto Sample.codecs 16
           (Sample.catalog Sample.abcHeader Sample.abc)
           (Sample.plainFile Sample.abcHeader)).
  left. reflexivity.
Defined.

Lemma unknown_method_yields_no_reader_witness :
  exists raw res e,
    @FastReader.Open BytesReader _ Sample.crypto Sample.codecs 16
      (Sample.catalog (mkHeader 0 99 0 3 3 0 0 []) Sample.abc)
      (Sample.plainFile (mkHeader 0 99 0 3 3 0 0 [])) = Ret (raw, res) /\
    res = inr e.
Proof.
  assert (E : exists raw res,
            @FastReader.Open BytesReader _ Sample.crypto Sample.codecs 16
              (Sample.catalog (mkHeader 0 99 0 3 3 0 0 []) Sample.abc)
              (Sample.plainFile (mkHeader 0 99 0 3 3 0 0 []))
            = Ret (raw, res)) by (vm_compute; eauto).
  destruct E as (raw & res & E).
  destruct (@unknown_method_yields_no_reader BytesReader _ Sample.crypto
              Sample.codecs 16
              (Sample.catalog (mkHeader 0 99 0 3 3 0 0 []) Sample.abc)
              (Sample.plainFile (mkHeader 0 99 0 3 3 0 0 []))
              raw res eq_refl E) as [e He].
  exists raw, res, e. split; assumption.
Defined.

Section IntegrityMoreFacts.
Import FastReader.
Context {X : Type} `{Reader X} {RC : Type}.
Variable rcRead : ReadFn (RC * RewindReader X).

Lemma drain_truncated fuel k n : forall fr raw acc st' out,
  ferr fr = None -> nread fr = Z.of_nat (length acc) ->
  Z.of_nat (length out) < 2 ^ 64 ->
  UncompressedSize64 (hdr (f fr)) <> Z.of_nat (length out) ->
  drain rcRead n fuel (rc fr, raw) k acc = Ret (st', out, Some EOF) ->
  exists st'' out' last,
    drain (FileRead rcRead) n fuel (fr, raw) k acc
    = Ret (st'', out', Some ErrUnexpectedEOF) /\
    out = out' ++ last.
Proof.
  induction n as [|n IH]; intros fr raw acc st' out He Hn Hlt Hu E;
    cbn [drain] in E |- *; [discriminate|].
  unfold FileRead at 1. rewrite He.
  destruct (rcRead fuel (rc fr, raw) k) as [[[[rc1 raw1] bs] e1]| |];
    cbn [bind] in *; try discriminate.
  assert (Hw : forall rest, out = (acc ++ bs) ++ rest ->
            wrapU64 (nread fr + Z.of_nat (length bs))
            = Z.of_nat (length (acc ++ bs))).
  { intros rest ->. rewrite Hn. rewrite !length_app in *.
    unfold wrapU64. rewrite Z.mod_small; lia. }
  destruct e1 as [e1|].
  - inversion E; subst. rewrite (Hw []) by now rewrite app_nil_r.
    cbn [rc descOff hash nread f ferr].
    replace (Z.of_nat (length (acc ++ bs))
             =? UncompressedSize64 (hdr (f fr))) with false
      by (symmetry; apply Z.eqb_neq; congruence).
    cbn [negb bind]. exists (mkFile_ rc1 (descOff fr)
                               (Crc32.Write (hash fr) bs)
                               (Z.of_nat (length (acc ++ bs))) (f fr) None,
                             raw1), acc, bs.
    now rewrite app_nil_r.
  - destruct (drain_prefix _ _ _ _ _ _ _ _ _ E) as [rest Hr].
    set (fr1 := mkFile_ rc1 (descOff fr) (Crc32.Write (hash fr) bs)
                  (wrapU64 (nread fr + Z.of_nat (length bs))) (f fr) None).
    destruct (IH fr1 raw1 (acc ++ bs) st' out) as (st'' & out' & last & E'' & Ho);
      cbn [fr1 ferr descOff hash nread f rc]; auto.
    + apply (Hw rest Hr).
    + exists st'', out', last. split; assumption.
Qed.

(** X16.  An entry whose decompressed stream ends with a number of
    bytes other than its declared uncompressed size fails with the
    unexpected-end error, whatever its checksum and whether it has a
    trailing descriptor or not; the read that meets the end reports no
    bytes, so the caller has received a prefix of the stream. *)
Theorem wrong_length_is_unexpected_eof fuel k n (fr : fastFileReader RC)
  raw st' out :
  ferr fr = None -> nread fr = 0 ->
  Z.of_nat (length out) < 2 ^ 64 ->
  UncompressedSize64 (hdr (f fr)) <> Z.of_nat (length out) ->
  drain rcRead n fuel (rc fr, raw) k [] = Ret (st', out, Some EOF) ->
  exists st'' out' last,
    drain (FileRead rcRead) n fuel (fr, raw) k []
    = Ret (st'', out', Some ErrUnexpectedEOF) /\
    out = out' ++ last.
Proof.
  intros He Hn. apply drain_truncated; assumption.
Qed.

Lemma drain_intact fuel k n : forall fr raw acc st' out,
  ferr fr = None -> descOff fr = 0 ->
  hash fr = Crc32.update 0 acc -> nread fr = Z.of_nat (length acc) ->
  UncompressedSize64 (hdr (f fr)) = Z.of_nat (length out) ->
  Z.of_nat (length out) < 2 ^ 64 ->
  CRC32 (hdr (f fr)) = 0 \/ CRC32 (hdr (f fr)) = Crc32.ChecksumIEEE out ->
  drain rcRead n fuel (rc fr, raw) k acc = Ret (st', out, Some EOF) ->
  exists st'',
    drain (FileRead rcRead) n fuel (fr, raw) k acc = Ret (st'', out, Some EOF).
Proof.
  induction n as [|n IH];
    intros fr raw acc st' out He Hd Hh Hn Hu Hlt Hc E; cbn [drain] in E |- *;
    [discriminate|].
  unfold FileRead at 1. rewrite He.
  destruct (rcRead fuel (rc fr, raw) k) as [[[[rc1 raw1] bs] e1]| |];
    cbn [bind] in *; try discriminate.
  assert (Hw : forall rest, out = (acc ++ bs) ++ rest ->
            wrapU64 (nread fr + Z.of_nat (length bs))
            = Z.of_nat (length (acc ++ bs))).
  { intros rest ->. rewrite Hn. rewrite !length_app in *.
    unfold wrapU64. rewrite Z.mod_small; lia. }
  destruct e1 as [e1|].
  - inversion E; subst. rewrite (Hw []) by now rewrite app_nil_r.
    rewrite Hu, Z.eqb_refl, Hd. cbn [negb Z.ltb Z.compare bind].
    rewrite Hh. unfold Crc32.Sum32, Crc32.Write. rewrite update_app.
    cbn [rc descOff hash nread f ferr].
    assert (V : negb (CRC32 (hdr (f fr)) =? 0)
                && negb (Crc32.update 0 (acc ++ bs) =? CRC32 (hdr (f fr)))
                = false).
    { destruct Hc as [Hc|Hc].
      - rewrite Hc. reflexivity.
      - unfold Crc32.ChecksumIEEE in Hc. rewrite <- Hc, Z.eqb_refl.
        apply andb_false_r. }
    rewrite V. eexists; reflexivity.
  - destruct (drain_prefix _ _ _ _ _ _ _ _ _ E) as [rest Hr].
    set (fr1 := mkFile_ rc1 (descOff fr) (Crc32.Write (hash fr) bs)
                  (wrapU64 (nread fr + Z.of_nat (length bs))) (f fr) None).
    destruct (IH fr1 raw1 (acc ++ bs) st' out) as [st'' E''];
      cbn [fr1 ferr descOff hash nread f rc]; auto.
    + rewrite Hh. apply update_app.
    + apply (Hw rest Hr).
    + exists st''. exact E''.
Qed.

(** X17.  An intact entry without trailing descriptor reads through:
    when the decompressed stream has the declared length and the
    declared checksum (or the declared checksum is zero), the
    integrity reader delivers every byte of it unchanged and ends with
    the plain end-of-stream. *)
Theorem intact_entry_reads_to_eof fuel k n (fr : fastFileReader RC)
  raw st' out :
  ferr fr = None -> descOff fr = 0 ->
  hash fr = Crc32.NewIEEE -> nread fr = 0 ->
  UncompressedSize64 (hdr (f fr)) = Z.of_nat (length out) ->
  Z.of_nat (length out) < 2 ^ 64 ->
  CRC32 (hdr (f fr)) = 0 \/ CRC32 (hdr (f fr)) = Crc32.ChecksumIEEE out ->
  drain rcRead n fuel (rc fr, raw) k [] = Ret (st', out, Some EOF) ->
  exists st'',
    drain (FileRead rcRead) n fuel (fr, raw) k [] = Ret (st'', out, Some EOF).
Proof.
  intros He Hd Hh Hn. apply drain_intact; assumption.
Qed.

(** X18.  Every error of the integrity reader other than the
    unexpected-end error is stored: after it, every read returns no
    byte and that same error, and touches neither the decompressor nor
    the shared stream. *)
Theorem stored_error_is_sticky fuel (fr fr' : fastFileReader RC) raw raw' k
  bs e :
  FileRead rcRead fuel (fr, raw) k = Ret ((fr', raw'), bs, Some e) ->
  e <> ErrUnexpectedEOF ->
  forall fuel' raw'' k',
    FileRead rcRead fuel' (fr', raw'') k' = Ret ((fr', raw''), [], Some e).
Proof.
  intros E Hne fuel' raw'' k'.
  destruct (FileRead_stores rcRead _ _ _ _ _ _ _ _ E) as [S|[C _]];
    [|contradiction].
  now apply FileRead_sticky.
Qed.

End IntegrityMoreFacts.

Lemma wrong_length_is_unexpected_eof_witness :
  let fr : FastReader.fastFileReader Sample.Script :=
    FastReader.mkFile_ [(Sample.abc, Some EOF)] 0 Crc32.NewIEEE 0
      (Sample.plainFile (mkHeader 0 0 0 5 5 0 0 [])) None in
  exists st'' out' last,
    drain (FastReader.FileRead Sample.scriptRead) 2 1
      (fr, new (mkBytes [])) 8 []
    = Ret (st'', out', Some ErrUnexpectedEOF) /\
    Sample.abc = out' ++ last.
Proof.
  intros fr.
  apply (@wrong_length_is_unexpected_eof BytesReader _ Sample.Script
           Sample.scriptRead 1 8 2 fr (new (mkBytes []))
           ([], new (mkBytes [])) Sample.abc);
    [reflexivity | reflexivity | cbn; lia | discriminate | reflexivity].
Defined.

Lemma intact_entry_reads_to_eof_witness :
  let fr : FastReader.fastFileReader Sample.Script :=
    FastReader.mkFile_ [(Sample.abc, Some EOF)] 0 Crc32.NewIEEE 0
      (Sample.plainFile Sample.abcHeader) None in
  exists st'',
    drain (FastReader.FileRead Sample.scriptRead) 2 1
      (fr, new (mkBytes [])) 8 []
    = Ret (st'', Sample.abc, Some EOF).
Proof.
  intros fr.
  apply (@intact_entry_reads_to_eof BytesReader _ Sample.Script
           Sample.scriptRead 1 8 2 fr (new (mkBytes []))
           ([], new (mkBytes [])) Sample.abc);
    [reflexivity | reflexivity | reflexivity | reflexivity | reflexivity
    | cbn; lia | right; vm_compute; reflexivity | reflexivity].
Defined.

Lemma stored_error_is_sticky_witness :
  let fr : FastReader.fastFileReader Sample.Script :=
    FastReader.mkFile_ [(corrupt Sample.abc 1 Byte.x78, Some EOF)] 0
      Crc32.NewIEEE 0 (Sample.plainFile Sample.abcHeader) None in
  exists fr' raw' bs,
    FastReader.FileRead Sample.scriptRead 1%nat (fr, new (mkBytes [])) 8%nat
    = Ret ((fr', raw'), bs, Some ErrChecksum) /\
    forall fuel' raw'' k',
      @FastReader.FileRead BytesReader _ Sample.Script Sample.scriptRead
        fuel' (fr', raw'') k'
      = Ret ((fr', raw''), [], Some ErrChecksum).
Proof.
  intros fr.
  assert (E : exists fr' raw' bs,
            FastReader.FileRead Sample.scriptRead 1%nat
              (fr, new (mkBytes [])) 8%nat
            = Ret ((fr', raw'), bs, Some ErrChecksum))
    by (vm_compute; eauto).
  destruct E as (fr' & raw' & bs & E). exists fr', raw', bs.
  split; [exact E|].
  apply (@stored_error_is_sticky BytesReader _ Sample.Script
           Sample.scriptRead 1 fr fr' (new (mkBytes [])) raw' 8 bs
           ErrChecksum E).
  discriminate.
Defined.

Section DescriptorBytes.
Import FastReader.
Context {RC : Type}.

Lemma ReadFull_bytes fuel (r : RewindReader BytesReader) (w : list byte)
  (k : nat) :
  live r -> rawReader r = mkBytes w -> (0 < k <= length w)%nat ->
  exists r',
    ReadFull (S fuel) r k = Ret (r', firstn k w, None) /\
    rawReader r' = mkBytes (skipn k w) /\ live r' /\
    buffering r' = buffering r /\ bufferSize r' = bufferSize r.
Proof.
  intros Hl Hw Hk. unfold ReadFull. cbn [readAtLeast length].
  replace (k <=? 0)%nat with false by (symmetry; apply Nat.leb_gt; lia).
  rewrite Nat.sub_0_r.
  change (@Read (RewindReader BytesReader) _ r k) with (RRead r k).
  pose proof (RRead_live r k Hl) as P. rewrite Hw in P.
  destruct w as [|x w]; [cbn in Hk; lia|].
  assert (HR : Read (mkBytes (x :: w)) k
               = (mkBytes (skipn k (x :: w)), firstn k (x :: w), None))
    by reflexivity.
  rewrite HR in P.
  destruct P as (r' & E & P1 & P2 & P3 & P4 & _). rewrite E. cbn [app].
  assert (L : (k <=? length (firstn k (x :: w)))%nat = true).
  { apply Nat.leb_le. rewrite length_firstn. lia. }
  destruct fuel; cbn [readAtLeast]; rewrite L;
    exists r'; repeat split; auto; now left.
Qed.

Lemma uint32_firstn l : uint32 (firstn 4 l) = uint32 l.
Proof. destruct l as [|a [|b [|c [|d l]]]]; reflexivity. Qed.

Lemma Seek_here (r : RewindReader BytesReader) off :
  off = readIdx r -> Seek r off 0 = Ret (r, off, None).
Proof.
  intros Ho.
  destruct (Seek_outcome r off 0) as (r' & o & e & E & _ & S).
  destruct (S eq_refl Ho) as (-> & -> & ->). exact E.
Qed.

(** X20.  A trailing descriptor without signature.  When the stream
    stands at the descriptor offset with at least 24 bytes ahead and
    the first four are none of the three signatures the code looks
    for, they are taken for the checksum field: the result is no error
    when they equal the declared checksum and the checksum error
    otherwise.  24 bytes of the stream are consumed, twelve more than
    such a descriptor has, and buffering is off afterwards. *)
Theorem descriptor_without_signature fuel (fr : fastFileReader RC)
  (raw : RewindReader BytesReader) (w : list byte) :
  buffering raw = false -> rawReader raw = mkBytes w ->
  descOff fr = readIdx raw -> (24 <= length w)%nat ->
  uint32 w <> dataDescriptorSignature -> uint32 w <> fileHeaderSignature ->
  uint32 w <> directoryHeaderSignature ->
  exists raw',
    readDataDescriptor (S fuel) fr raw
    = Ret (raw', if uint32 w =? CRC32 (hdr (f fr)) then None
                 else Some ErrChecksum) /\
    rawReader raw' = mkBytes (skipn 24 w) /\ buffering raw' = false.
Proof.
  intros Hb Hw Ho Hlen H1 H2 H3. unfold readDataDescriptor.
  rewrite (Seek_here raw _ Ho). cbn [bind]. unfold SetBufferSize.
  cbn [Z.of_nat dataDescriptorLen Z.eqb]. rewrite Hb.
  allocates. cbn [bind].
  match goal with |- context [ReadFull _ ?q _] => set (raw2 := q) end.
  destruct (ReadFull_bytes fuel raw2 w dataDescriptorLen)
    as (raw3 & E3 & W3 & L3 & B3 & _);
    [right; cbn; lia | exact Hw | unfold dataDescriptorLen; lia |].
  rewrite E3. cbn [bind]. unfold dataDescriptorLen.
  rewrite firstn_firstn. cbn [Nat.min]. rewrite uint32_firstn.
  apply Z.eqb_neq in H1, H2, H3. rewrite H1, H2, H3. cbn [negb andb orb].
  destruct (ReadFull_bytes fuel raw3 (skipn 16 w) (12 - 4))
    as (raw4 & E4 & W4 & L4 & B4 & _);
    [exact L3 | exact W3 | rewrite length_skipn; cbn; lia |].
  rewrite E4. cbn [bind].
  assert (U : uint32 (firstn 4 (firstn 16 w) ++ firstn (12 - 4) (skipn 16 w))
              = uint32 w).
  { rewrite firstn_firstn. cbn [Nat.min].
    destruct w as [|a [|b [|c [|d w]]]]; cbn in Hlen; try lia. reflexivity. }
  rewrite U. rewrite skipn_skipn in W4.
  destruct (uint32 w =? CRC32 (hdr (f fr))); cbn [negb];
    eexists; (split; [reflexivity|]); split; auto.
Qed.

(** X21.  A trailing descriptor with its signature.  When the stream
    stands at the descriptor offset with at least 28 bytes ahead and
    the first four are the descriptor signature, the reader takes a
    16-byte window and then twelve bytes more, and compares the first
    four of those, the bytes at offset 16 from the signature, with
    the declared checksum.  28 bytes are consumed. *)
Theorem descriptor_with_signature fuel (fr : fastFileReader RC)
  (raw : RewindReader BytesReader) (w : list byte) :
  buffering raw = false -> rawReader raw = mkBytes w ->
  descOff fr = readIdx raw -> (28 <= length w)%nat ->
  uint32 w = dataDescriptorSignature ->
  exists raw',
    readDataDescriptor (S fuel) fr raw
    = Ret (raw', if uint32 (skipn 16 w) =? CRC32 (hdr (f fr)) then None
                 else Some ErrChecksum) /\
    rawReader raw' = mkBytes (skipn 28 w) /\ buffering raw' = false.
Proof.
  intros Hb Hw Ho Hlen H1. unfold readDataDescriptor.
  rewrite (Seek_here raw _ Ho). cbn [bind]. unfold SetBufferSize.
  cbn [Z.of_nat dataDescriptorLen Z.eqb]. rewrite Hb.
  allocates. cbn [bind].
  match goal with |- context [ReadFull _ ?q _] => set (raw2 := q) end.
  destruct (ReadFull_bytes fuel raw2 w dataDescriptorLen)
    as (raw3 & E3 & W3 & L3 & B3 & _);
    [right; cbn; lia | exact Hw | unfold dataDescriptorLen; lia |].
  rewrite E3. cbn [bind]. unfold dataDescriptorLen.
  rewrite firstn_firstn. cbn [Nat.min]. rewrite uint32_firstn, H1.
  cbn [Z.eqb dataDescriptorSignature Pos.eqb negb andb].
  destruct (ReadFull_bytes fuel raw3 (skipn 16 w) (12 - 0))
    as (raw4 & E4 & W4 & L4 & B4 & _);
    [exact L3 | exact W3 | rewrite length_skipn; cbn; lia |].
  rewrite E4. cbn [bind firstn app].
  assert (U : uint32 (firstn (12 - 0) (skipn 16 w)) = uint32 (skipn 16 w)).
  { rewrite <- (uint32_firstn (firstn _ _)), firstn_firstn. cbn [Nat.min].
    apply uint32_firstn. }
  rewrite U. rewrite skipn_skipn in W4.
  destruct (uint32 (skipn 16 w) =? CRC32 (hdr (f fr))); cbn [negb];
    eexists; (split; [reflexivity|]); split; auto.
Qed.

Lemma RRead_at_end (r : RewindReader BytesReader) k :
  live r -> rawReader r = mkBytes [] ->
  exists r', RRead r k = (r', [], Some EOF) /\
    buffering r' = buffering r.
Proof.
  intros Hl Hw. pose proof (RRead_live r k Hl) as P. rewrite Hw in P.
  assert (HR : Read (mkBytes []) k = (mkBytes [], [], Some EOF))
    by reflexivity.
  rewrite HR in P. destruct P as (r' & E & _ & _ & B & _). eauto.
Qed.

(** X19.  A stream that ends too soon after the body.  When the
    stream stands at the descriptor offset with fewer than 16 bytes
    left, the descriptor cannot be sniffed: the result is the
    unexpected-end error when some bytes are left and end-of-stream
    when none is, whatever those bytes are, and buffering is off
    afterwards. *)
Theorem short_descriptor_window fuel (fr : fastFileReader RC)
  (raw : RewindReader BytesReader) (w : list byte) :
  buffering raw = false -> rawReader raw = mkBytes w ->
  descOff fr = readIdx raw -> (length w < 16)%nat ->
  exists raw',
    readDataDescriptor (S (S fuel)) fr raw
    = Ret (raw', Some (match w with [] => EOF | _ => ErrUnexpectedEOF end)) /\
    buffering raw' = false.
Proof.
  intros Hb Hw Ho Hlen. unfold readDataDescriptor.
  rewrite (Seek_here raw _ Ho). cbn [bind]. unfold SetBufferSize.
  cbn [Z.of_nat dataDescriptorLen Z.eqb]. rewrite Hb.
  allocates. cbn [bind].
  match goal with |- context [ReadFull _ ?q _] => set (raw2 := q) end.
  assert (L2 : live raw2) by (right; cbn; lia).
  unfold ReadFull, dataDescriptorLen. cbn [readAtLeast].
  change (16 <=? length (@nil byte))%nat with false. cbv iota.
  change (@Read (RewindReader BytesReader) _ raw2 (16 - length (@nil byte)))
    with (RRead raw2 16).
  destruct w as [|x w].
  - destruct (RRead_at_end raw2 16 L2 Hw) as (r3 & E3 & _).
    rewrite E3. cbn [app].
    change (16 <=? length (@nil byte))%nat with false.
    change (0 <? length (@nil byte))%nat with false.
    cbn [andb bind]. eexists; split; reflexivity.
  - assert (H16 : (16 <=? length (x :: w))%nat = false)
      by (apply Nat.leb_gt; exact Hlen).
    pose proof (RRead_live raw2 16 L2) as P. cbn [raw2 rawReader] in P.
    rewrite Hw in P.
    assert (HR : Read (mkBytes (x :: w)) 16 = (mkBytes [], x :: w, None)).
    { unfold Read, BytesReader_Reader. cbn [remaining].
      rewrite firstn_all2, skipn_all2 by lia. reflexivity. }
    rewrite HR in P. destruct P as (r3 & E3 & W3 & R3 & _).
    fold raw2 in E3. rewrite E3. cbn [app]. rewrite H16.
    change (@Read (RewindReader BytesReader) _ r3 (16 - length (x :: w)))
      with (RRead r3 (16 - length (x :: w))).
    destruct (RRead_at_end r3 (16 - length (x :: w)) (or_introl R3) W3)
      as (r4 & E4 & _).
    rewrite E4, app_nil_r, H16.
    change (0 <? length (x :: w))%nat with true.
    change (error_eqb EOF EOF) with true.
    cbn [andb bind]. eexists; split; reflexivity.
Qed.

End DescriptorBytes.

Lemma descriptor_without_signature_witness :
  exists raw',
    FastReader.readDataDescriptor 1 Sample.atDescriptor
      (Sample.streamAt33 Sample.endRecord) = Ret (raw', Some ErrChecksum) /\
    rawReader raw' = mkBytes (skipn 24 Sample.endRecord) /\
    buffering raw' = false.
Proof.
  apply (@descriptor_without_signature unit 0 Sample.atDescriptor
           (Sample.streamAt33 Sample.endRecord) Sample.endRecord);
    try reflexivity; try discriminate; cbn; lia.
Defined.

Lemma descriptor_with_signature_witness :
  let w :=
    Sample.bytesOf [80; 75; 7; 8; 194; 65; 36; 53; 3; 0; 0; 0; 3; 0; 0; 0]%N
    ++ Sample.bareHeader in
  exists raw',
    FastReader.readDataDescriptor 1 Sample.atDescriptor (Sample.streamAt33 w)
    = Ret (raw', Some ErrChecksum) /\
    rawReader raw' = mkBytes (skipn 28 w) /\ buffering raw' = false.
Proof.
  intros w.
  apply (@descriptor_with_signature unit 0 Sample.atDescriptor
           (Sample.streamAt33 w) w);
    try reflexivity; cbn; lia.
Defined.

Lemma short_descriptor_window_witness :
  exists raw',
    FastReader.readDataDescriptor 2 Sample.atDescriptor
      (Sample.streamAt33 Sample.abc) = Ret (raw', Some ErrUnexpectedEOF) /\
    buffering raw' = false.
Proof.
  apply (@short_descriptor_window unit 0 Sample.atDescriptor
           (Sample.streamAt33 Sample.abc) Sample.abc);
    try reflexivity; cbn; lia.
Defined.

Section ModeFacts.
Import FastReader.
Context {X : Type} `{Reader X} {RC : Type}.

Lemma RRead_keeps_mode (r r' : RewindReader X) k bs e :
  RRead r k = (r', bs, e) ->
  buffering r' = buffering r /\ bufferSize r' = bufferSize r.
Proof.
  unfold RRead, read. destruct (rewound r && _).
  - intros E. inversion E; subst. cbn. auto.
  - destruct (Read (rawReader r) k) as [[raw' bs'] e'].
    destruct (buffering r) eqn:B; intros E; inversion E; subst; cbn; auto.
Qed.

Lemma discard_loop_keeps_mode fuel : forall (r r' : RewindReader X) d n res,
  discard_loop fuel r d n = (r', res) ->
  buffering r' = buffering r /\ bufferSize r' = bufferSize r.
Proof.
  induction fuel as [|fuel IH]; intros r r' d n res E; cbn [discard_loop] in E.
  - inversion E; subst. auto.
  - destruct (d + 128 <? n); [|inversion E; subst; auto].
    destruct (RRead r 128) as [[r1 bs] e1] eqn:E1.
    destruct (RRead_keeps_mode _ _ _ _ _ E1) as [A B].
    destruct e1 as [e1|].
    + inversion E; subst. auto.
    + apply IH in E. destruct E. split; congruence.
Qed.

Lemma Seek_keeps_mode (r r' : RewindReader X) off whence o e :
  Seek r off whence = Ret (r', o, e) ->
  buffering r' = buffering r /\ bufferSize r' = bufferSize r.
Proof.
  unfold Seek. destruct (negb _); [intros E; inversion E; subst; auto|].
  destruct (off <? readIdx r); [intros E; inversion E; subst; auto|].
  destruct (0 <? _); [|intros E; inversion E; subst; auto].
  unfold Discard, discard.
  destruct (_ <? 0); [discriminate|].
  assert (K : forall (q : RewindReader X) c (e0 : option error) r0 o0 e',
            match e0 with
            | Some e1 => Ret (set_readIdx q (wrap64 (readIdx q + c)), 0, Some e1)
            | None => Ret (set_readIdx q (wrap64 (readIdx q + c)), off, None)
            end = Ret (r0, o0, e') ->
            buffering r0 = buffering q /\ bufferSize r0 = bufferSize q).
  { intros q c [e0|] r0 o0 e' E; inversion E; subst; cbn; auto. }
  destruct (_ <? 128).
  - destruct (RRead r _) as [[r1 bs] e1] eqn:E1. cbn [bind].
    destruct (RRead_keeps_mode _ _ _ _ _ E1) as [A B].
    intros E. apply K in E. destruct E. split; congruence.
  - destruct (discard_loop _ r 0 _) as [r1 [[d e1]|]] eqn:E1;
      destruct (discard_loop_keeps_mode _ _ _ _ _ _ E1) as [A B].
    + cbn [bind]. intros E. apply (K r1 d (Some e1)) in E.
      destruct E. split; congruence.
    + destruct (negb _).
      * destruct (RRead r1 _) as [[r2 bs] e2] eqn:E2. cbn [bind].
        destruct (RRead_keeps_mode _ _ _ _ _ E2) as [A2 B2].
        intros E. apply K in E. destruct E. split; congruence.
      * cbn [bind]. intros E. apply (K r1 _ None) in E.
        destruct E. split; congruence.
Qed.

Lemma readAtLeast_keeps_mode k fuel : forall (r r' : RewindReader X) acc out e,
  readAtLeast fuel r k acc = Ret (r', out, e) ->
  buffering r' = buffering r /\ bufferSize r' = bufferSize r.
Proof.
  induction fuel as [|fuel IH]; intros r r' acc out e E; cbn [readAtLeast] in E.
  - destruct (k <=? length acc)%nat; [|discriminate].
    inversion E; subst. auto.
  - destruct (k <=? length acc)%nat; [inversion E; subst; auto|].
    change (@Read (RewindReader X) _ r (k - length acc))
      with (RRead r (k - length acc)) in E.
    destruct (RRead r (k - length acc)) as [[r1 bs] e1] eqn:E1.
    destruct (RRead_keeps_mode _ _ _ _ _ E1) as [A B].
    destruct e1 as [e1|].
    + destruct (k <=? length (acc ++ bs))%nat;
        [|destruct (_ && _)]; inversion E; subst; auto.
    + apply IH in E. destruct E. split; congruence.
Qed.

Lemma readAtLeast_no_panic {S} `{Reader S} k fuel : forall (r : S) acc msg,
  readAtLeast fuel r k acc <> Panic msg.
Proof.
  induction fuel as [|fuel IH]; intros r acc msg; cbn [readAtLeast].
  - destruct (k <=? length acc)%nat; discriminate.
  - destruct (k <=? length acc)%nat; [discriminate|].
    destruct (Read r (k - length acc)) as [[r1 bs] [e1|]]; [|apply IH].
    destruct (k <=? length (acc ++ bs))%nat;
      [|destruct (_ && _)]; discriminate.
Qed.

(** X22.  [readDataDescriptor] gives the shared stream back with
    buffering switched off, on every path, and never panics, provided
    the stream was not buffering when it was called: the next entry's
    descriptor can be sniffed in turn. *)
Theorem readDataDescriptor_leaves_buffering_off fuel (fr : fastFileReader RC)
  (raw : RewindReader X) :
  buffering raw = false ->
  match readDataDescriptor fuel fr raw with
  | Ret (raw', _) => buffering raw' = false
  | Panic _ => False
  | OutOfFuel => True
  end.
Proof.
  intros Hb. unfold readDataDescriptor.
  destruct (Seek_outcome raw (descOff fr) 0)
    as (raw1 & o & e & E & _).
  rewrite E. cbn [bind].
  destruct (Seek_keeps_mode _ _ _ _ _ _ E) as [B1 _]. rewrite Hb in B1.
  destruct e as [e|]; [exact B1|].
  unfold SetBufferSize. cbn [Z.of_nat dataDescriptorLen Z.eqb].
  rewrite B1. allocates.
  cbn [bind].
  match goal with |- context [ReadFull _ ?q _] => set (raw2 := q) end.
  unfold ReadFull, dataDescriptorLen.
  destruct (readAtLeast fuel raw2 16 []) as [[[raw3 buf3] rerr]|msg|] eqn:E3;
    cbn [bind]; [|exact (readAtLeast_no_panic _ _ _ _ _ E3)|exact I].
  destruct (readAtLeast_keeps_mode _ _ _ _ _ _ _ E3) as [_ S3].
  cbn [raw2 bufferSize] in S3.
  destruct rerr as [e3|]; [reflexivity|].
  destruct (negb _ && _).
  - unfold Rewind. rewrite S3. cbn [Z.eqb bind]. reflexivity.
  - destruct (readAtLeast fuel raw3 _ []) as [[[raw4 bs4] rerr4]|msg|] eqn:E4;
      cbn [bind]; [|exact (readAtLeast_no_panic _ _ _ _ _ E4)|exact I].
    destruct rerr4; [reflexivity|]. destruct (negb _); reflexivity.
Qed.

(** X24.  Opening an entry whose local header lies behind the cursor
    of the shared stream fails with the error of [Seek], and the
    stream is left exactly as it was: nothing is read. *)
Theorem Open_behind_cursor_fails {R : Type} `{Reader R} `{Codecs} fuel
  (z : @FastReader.FastReader R) (f : FastFile) :
  headerOffset f < readIdx (r z) ->
  Open fuel z f
  = Ret (r z, inr (ErrNew "offset is less than readIdx")).
Proof.
  intros Hlt. unfold Open, findBodyOffset, Seek. cbn [negb Z.eqb].
  replace (headerOffset f <? readIdx (r z)) with true
    by (symmetry; apply Z.ltb_lt; exact Hlt).
  reflexivity.
Qed.

End ModeFacts.

Lemma readDataDescriptor_leaves_buffering_off_witness :
  match
    FastReader.readDataDescriptor 4 Sample.atDescriptor
      (Sample.streamAt33 Sample.endRecord)
  with
  | Ret (raw', _) => buffering raw' = false
  | Panic _ => False
  | OutOfFuel => True
  end.
Proof.
  apply (@readDataDescriptor_leaves_buffering_off BytesReader _ unit 4
           Sample.atDescriptor (Sample.streamAt33 Sample.endRecord)).
  reflexivity.
Defined.

Lemma Open_behind_cursor_fails_witness :
  let z : @FastReader.FastReader BytesReader :=
    FastReader.mkReader (set_readIdx (new (mkMulti [mkBytes Sample.abc])) 50)
      [FastReader.mkFastFile Sample.abcHeader 45] in
  @FastReader.Open BytesReader _ Sample.crypto Sample.codecs 16 z
    (FastReader.mkFastFile Sample.abcHeader 45)
  = Ret (FastReader.r z, inr (ErrNew "offset is less than readIdx")).
Proof.
  intros z.
  apply (@Open_behind_cursor_fails BytesReader _ Sample.crypto Sample.codecs
           16 z (FastReader.mkFastFile Sample.abcHeader 45)).
  cbn. lia.
Defined.

Section OpenPosition.
Import FastReader.
Context `{Codecs}.

Lemma multi_read_bytes (w : list byte) (k : nat) :
  w <> [] ->
  Read (mkMulti [mkBytes w]) k
  = (mkMulti [mkBytes (skipn k w)], firstn k w, None).
Proof. destruct w; [contradiction|reflexivity]. Qed.

(** X23.  [Open] on the first entry of an in-memory archive, not
    encrypted and of a known method: with a well-formed local header
    and a name and extra field of fewer than 128 bytes together, it
    returns the integrity reader over the plain bounded stream and
    leaves the shared stream at the first byte of the body; the
    cursor, however, stands at 30 plus twice the length of name and
    extra field. *)
Theorem Open_positions_at_body fuel (fl : list FastFile) (f : FastFile)
  (h name tail : list byte) (d : Decomp) :
  headerOffset f = 0 -> length h = fileHeaderLen ->
  uint32 h = fileHeaderSignature ->
  uint16 (skipn 26 h) + uint16 (skipn 28 h) = Z.of_nat (length name) ->
  (length name < 128)%nat -> tail <> [] ->
  IsEncrypted (hdr f) = false -> isAE2 (hdr f) = false ->
  decompressor (Method (hdr f)) = Some d ->
  exists raw' dOff,
    Open fuel (mkReader (new (mkMulti [mkBytes (h ++ name ++ tail)])) fl) f
    = Ret (raw',
           inl (EntryChecked
                  (mkFile_ (d, SrcPlain (wrap64 (CompressedSize64 (hdr f))))
                     dOff Crc32.NewIEEE 0 f None))) /\
    rawReader raw' = mkMulti [mkBytes tail] /\ live raw' /\
    readIdx raw' = 30 + 2 * Z.of_nat (length name).
Proof.
  intros Ho Hh Hsig Hoff Hn Ht He Ha Hd.
  unfold Open, findBodyOffset. cbn [r].
  rewrite Ho.
  set (r0 := new (mkMulti [mkBytes (h ++ name ++ tail)])).
  destruct (Seek_outcome r0 0 0) as (q & o & e & ES & _ & SS).
  destruct (SS eq_refl eq_refl) as (-> & -> & ->). rewrite ES. cbn [bind].
  pose proof (RRead_live r0 fileHeaderLen (or_introl eq_refl)) as P.
  pose proof (RRead_live_idx r0) as Q.
  cbn [r0 new rawReader] in P.
  assert (F1 : firstn fileHeaderLen (h ++ name ++ tail) = h).
  { rewrite <- Hh, firstn_app, Nat.sub_diag, firstn_all. cbn [firstn].
    apply app_nil_r. }
  assert (S1 : skipn fileHeaderLen (h ++ name ++ tail) = name ++ tail).
  { rewrite <- Hh, skipn_app, Nat.sub_diag, skipn_all. reflexivity. }
  rewrite multi_read_bytes, F1, S1 in P
    by (destruct h; [discriminate|discriminate]).
  destruct P as (r1 & E1 & W1 & R1 & _).
  specialize (Q r1 _ _ _ (or_introl eq_refl) E1).
  rewrite E1.
  rewrite (fill_full _ _ Hh), Hsig, Z.eqb_refl. cbn [negb bind].
  rewrite Hoff. unfold Discard, discard.
  replace (Z.of_nat (length name) <? 0) with false
    by (symmetry; apply Z.ltb_ge; lia).
  replace (Z.of_nat (length name) <? 128) with true
    by (symmetry; apply Z.ltb_lt; lia).
  rewrite Nat2Z.id.
  pose proof (RRead_live r1 (length name) (or_introl R1)) as P2.
  pose proof (RRead_live_idx r1) as Q2.
  rewrite W1 in P2.
  assert (F2 : firstn (length name) (name ++ tail) = name).
  { rewrite firstn_app, Nat.sub_diag, firstn_all. cbn [firstn].
    apply app_nil_r. }
  assert (S2 : skipn (length name) (name ++ tail) = tail).
  { rewrite skipn_app, Nat.sub_diag, skipn_all. reflexivity. }
  rewrite multi_read_bytes, F2, S2 in P2
    by (intros C; apply app_eq_nil in C; destruct C; contradiction).
  destruct P2 as (r2 & E2 & W2 & R2 & _).
  specialize (Q2 r2 _ _ _ (or_introl R1) E2).
  rewrite E2. cbn [bind]. rewrite He, Hd, Ha. cbn [bind].
  do 2 eexists. split; [reflexivity|].
  cbn [set_readIdx rawReader readIdx]. split; [exact W2|].
  split; [left; exact R2|].
  rewrite Q2, Q. cbn [r0 new readIdx]. rewrite Hh.
  unfold fileHeaderLen, wrap64. cbn [Z.of_nat Pos.of_succ_nat Pos.succ].
  lia.
Qed.

End OpenPosition.

Lemma Open_positions_at_body_witness :
  exists raw' entry,
    @FastReader.Open BytesReader _ Sample.crypto Sample.codecs 16
      (Sample.catalog Sample.abcHeader Sample.abc)
      (Sample.plainFile Sample.abcHeader)
    = Ret (raw', inl entry) /\
    rawReader raw' = mkMulti [mkBytes Sample.abc] /\ live raw' /\
    readIdx raw' = 30 + 2 * Z.of_nat (length (Sample.bytesOf [97]%N)).
Proof.
  destruct (@Open_positions_at_body Sample.crypto Sample.codecs 16
              [Sample.plainFile Sample.abcHeader]
              (Sample.plainFile Sample.abcHeader)
              Sample.localHeader (Sample.bytesOf [97]%N) Sample.abc tt)
    as (raw' & dOff & E & W & L & I);
    try reflexivity; try discriminate; try (cbn; lia).
  exists raw'. eexists. split; [exact E|]. auto.
Defined.
